(** * The chunked upload engine of boxsdk ([boxsdk/util/chunked_uploader.py])

    A shallow embedding of [ChunkedUploader] and [InflightPart], with the
    upload session and the content stream as explicit collaborators, and
    the properties of the engine proved over it. *)

From Stdlib Require Import ZArith List String Lia.
From Stdlib.Strings Require Import Byte.
From stdpp Require Import base gmap list sorting.

Local Open Scope Z_scope.

(** ** Data model *)

Definition bytes := list byte.

(** A part record, the dict the session returns for a persisted part.  It
    always has the key ['offset'] (resume reads it from every listed part),
    so it is a non-empty dict and truthy in [d.get(k) or ...]. *)
Record Part := mkPart { p_offset : Z; p_size : Z; p_id : Z }.

(** The finished file the session returns from [commit]. *)
Record File := mkFile { file_sha1 : bytes; file_parts : list Part }.

Inductive exn :=
| BoxException (msg : string)
| AssertionError
| StreamError
| SessionError (code : Z).

(** Outcome of a call on a collaborator: it returns or it raises. *)
Inductive reply (A : Type) :=
| Returns (a : A)
| Raises (e : exn).
Arguments Returns {A} a.
Arguments Raises {A} e.

(** Outcome of a method of the engine.  [Diverged] is the loop that is still
    running when the fuel is gone. *)
Inductive outcome (A : Type) :=
| Done (a : A)
| Threw (e : exn)
| Diverged.
Arguments Done {A} a.
Arguments Threw {A} e.
Arguments Diverged {A}.

(** ** The content stream

    [read(n)] of a Python byte stream returns [None] when no byte is ready
    yet, the empty string at the end of the stream, and otherwise between 1
    and [n] bytes; it may also raise.  The bytes still to come are [pending];
    what the [k]-th call does is fixed by [schedule]. *)
Inductive ReadEvent :=
| NotReady
| Deliver (extra : nat)
| Fault.

Record Stream := mkStream {
  pending : bytes;
  schedule : nat -> ReadEvent;
  reads : nat
}.

Definition stream_read (st : Stream) (n : Z) : Stream * reply (option bytes) :=
  match schedule st (reads st) with
  | NotReady =>
      (mkStream (pending st) (schedule st) (S (reads st)), Returns None)
  | Deliver extra =>
      let k := Nat.min (Z.to_nat n) (S extra) in
      (mkStream (drop k (pending st)) (schedule st) (S (reads st)),
       Returns (Some (take k (pending st))))
  | Fault =>
      (mkStream (pending st) (schedule st) (S (reads st)), Raises StreamError)
  end.

(** ** The upload session

    [total_parts] and [part_size] are attributes of the session; the four
    operations go to the remote end, whose behaviour is an interface.  The
    [journal] lists the requests the session received, oldest first. *)
Inductive Call :=
| CallGetParts
| CallUploadPartBytes (part_bytes : bytes) (offset : Z) (total_size : Z)
| CallCommit (content_sha1 : bytes) (parts : list Part)
| CallAbort.

Class Remote (R : Type) := {
  remote_get_parts : R -> R * reply (list Part);
  remote_upload_part_bytes : R -> bytes -> Z -> Z -> R * reply Part;
  remote_commit : R -> bytes -> list Part -> R * reply File;
  remote_abort : R -> R * reply bool
}.

Record UploadSession (R : Type) := mkSession {
  total_parts : Z;
  part_size : Z;
  remote : R;
  journal : list Call
}.
Arguments mkSession {R}.
Arguments total_parts {R}.
Arguments part_size {R}.
Arguments remote {R}.
Arguments journal {R}.

Section Session.
Context {R : Type} `{Remote R}.

Definition request (c : Call) (r : R) (s : UploadSession R) : UploadSession R :=
  mkSession (total_parts s) (part_size s) r (journal s ++ [c]).

Definition get_parts (s : UploadSession R) : UploadSession R * reply (list Part) :=
  let '(r, a) := remote_get_parts (remote s) in
  (request CallGetParts r s, a).

Definition upload_part_bytes (s : UploadSession R)
    (part_bytes : bytes) (offset total_size : Z) : UploadSession R * reply Part :=
  let '(r, a) := remote_upload_part_bytes (remote s) part_bytes offset total_size in
  (request (CallUploadPartBytes part_bytes offset total_size) r s, a).

Definition commit (s : UploadSession R)
    (content_sha1 : bytes) (parts : list Part) : UploadSession R * reply File :=
  let '(r, a) := remote_commit (remote s) content_sha1 parts in
  (request (CallCommit content_sha1 parts) r s, a).

Definition session_abort (s : UploadSession R) : UploadSession R * reply bool :=
  let '(r, a) := remote_abort (remote s) in
  (request CallAbort r s, a).
End Session.

(** ** [hashlib.sha1]

    The digest of the engine is Python's SHA-1 (FIPS 180-4), on 32-bit words
    kept in [Z] with the wrap-around written out. *)
Module SHA1.

Definition mask32 (x : Z) : Z := Z.land x 0xFFFFFFFF.

Definition rotl (n x : Z) : Z :=
  mask32 (Z.lor (Z.shiftl x n) (Z.shiftr x (32 - n))).

Definition add32 (x y : Z) : Z := (x + y) mod 2 ^ 32.

Definition be_bytes (width : nat) (x : Z) : list Z :=
  map (fun i => Z.land (Z.shiftr x (8 * Z.of_nat i)) 0xFF) (rev (seq 0 width)).

Definition pad (msg : list Z) : list Z :=
  let l := Z.of_nat (length msg) in
  msg ++ [0x80] ++ repeat 0 (Z.to_nat ((55 - l) mod 64)) ++ be_bytes 8 (8 * l).

Fixpoint words (bs : list Z) : list Z :=
  match bs with
  | a :: b :: c :: d :: rest =>
      Z.lor (Z.shiftl a 24) (Z.lor (Z.shiftl b 16) (Z.lor (Z.shiftl c 8) d))
      :: words rest
  | _ => []
  end.

Fixpoint blocks (n : nat) (ws : list Z) : list (list Z) :=
  match n with
  | O => []
  | S n' => take 16 ws :: blocks n' (drop 16 ws)
  end.

Definition expand (block : list Z) : list Z :=
  fold_left
    (fun w t =>
       w ++ [rotl 1 (Z.lxor (Z.lxor (nth (t - 3) w 0) (nth (t - 8) w 0))
                            (Z.lxor (nth (t - 14) w 0) (nth (t - 16) w 0)))])
    (seq 16 64) block.

Definition state : Type := Z * Z * Z * Z * Z.

Definition round (w : list Z) (st : state) (t : nat) : state :=
  let '(a, b, c, d, e) := st in
  let '(f, k) :=
    if (t <? 20)%nat then
      (Z.lor (Z.land b c) (Z.land (Z.lxor b 0xFFFFFFFF) d), 0x5A827999)
    else if (t <? 40)%nat then
      (Z.lxor (Z.lxor b c) d, 0x6ED9EBA1)
    else if (t <? 60)%nat then
      (Z.lor (Z.lor (Z.land b c) (Z.land b d)) (Z.land c d), 0x8F1BBCDC)
    else
      (Z.lxor (Z.lxor b c) d, 0xCA62C1D6) in
  let temp := add32 (add32 (add32 (add32 (rotl 5 a) f) e) k) (nth t w 0) in
  (temp, a, rotl 30 b, c, d).

Definition compress (h : state) (block : list Z) : state :=
  let '(h0, h1, h2, h3, h4) := h in
  let '(a, b, c, d, e) := fold_left (round (expand block)) (seq 0 80) h in
  (add32 h0 a, add32 h1 b, add32 h2 c, add32 h3 d, add32 h4 e).

Definition initial : state :=
  (0x67452301, 0xEFCDAB89, 0x98BADCFE, 0x10325476, 0xC3D2E1F0).

Definition to_byte (x : Z) : byte :=
  match Byte.of_N (Z.to_N x) with Some b => b | None => x00 end.

Definition hash (msg : bytes) : bytes :=
  let padded := pad (map (fun b => Z.of_N (Byte.to_N b)) msg) in
  let ws := words padded in
  let '(h0, h1, h2, h3, h4) :=
    fold_left compress (blocks (length ws / 16) ws) initial in
  map to_byte (concat (map (be_bytes 4) [h0; h1; h2; h3; h4])).

End SHA1.

(** The hash object: the arguments of its [update] calls so far, oldest
    first.  [digest()] hashes their concatenation. *)
Definition Hasher := list bytes.

Definition sha1_new : Hasher := [].

Definition sha1_update (h : Hasher) (data : bytes) : Hasher := h ++ [data].

Definition sha1_digest (h : Hasher) : bytes := SHA1.hash (concat h).

(** ** The engine state *)

(** [InflightPart]: its [_upload_session] is the engine's own session object
    (an alias, not a copy), so [upload] below goes through the engine. *)
Record InflightPart := mkInflightPart {
  offset : Z;
  chunk : bytes;
  total_size : Z
}.

Record ChunkedUploader (R : Type) := mkUploader {
  upload_session : UploadSession R;
  content_stream : option Stream;
  file_size : Z;
  part_array : list Part;
  sha1 : Hasher;
  part_definitions : gmap Z Part;
  inflight_part : option InflightPart;
  is_aborted : bool
}.
Arguments mkUploader {R}.
Arguments upload_session {R}.
Arguments content_stream {R}.
Arguments file_size {R}.
Arguments part_array {R}.
Arguments sha1 {R}.
Arguments part_definitions {R}.
Arguments inflight_part {R}.
Arguments is_aborted {R}.

Section Setters.
Context {R : Type}.
Implicit Type u : ChunkedUploader R.

Definition set_upload_session (s : UploadSession R) u :=
  mkUploader s (content_stream u) (file_size u) (part_array u) (sha1 u)
    (part_definitions u) (inflight_part u) (is_aborted u).
Definition set_content_stream (c : option Stream) u :=
  mkUploader (upload_session u) c (file_size u) (part_array u) (sha1 u)
    (part_definitions u) (inflight_part u) (is_aborted u).
Definition set_part_array (l : list Part) u :=
  mkUploader (upload_session u) (content_stream u) (file_size u) l (sha1 u)
    (part_definitions u) (inflight_part u) (is_aborted u).
Definition set_sha1 (h : Hasher) u :=
  mkUploader (upload_session u) (content_stream u) (file_size u) (part_array u) h
    (part_definitions u) (inflight_part u) (is_aborted u).
Definition set_part_definitions (d : gmap Z Part) u :=
  mkUploader (upload_session u) (content_stream u) (file_size u) (part_array u) (sha1 u)
    d (inflight_part u) (is_aborted u).
Definition set_inflight_part (p : option InflightPart) u :=
  mkUploader (upload_session u) (content_stream u) (file_size u) (part_array u) (sha1 u)
    (part_definitions u) p (is_aborted u).
Definition set_is_aborted (b : bool) u :=
  mkUploader (upload_session u) (content_stream u) (file_size u) (part_array u) (sha1 u)
    (part_definitions u) (inflight_part u) b.
End Setters.

(** ** Methods as state transformers with exceptions *)

Definition M (R A : Type) : Type :=
  ChunkedUploader R -> ChunkedUploader R * outcome A.

Section Monad.
Context {R : Type}.

Definition ret {A} (a : A) : M R A := fun u => (u, Done a).

Definition bind {A B} (m : M R A) (k : A -> M R B) : M R B := fun u =>
  match m u with
  | (u', Done a) => k a u'
  | (u', Threw e) => (u', Threw e)
  | (u', Diverged) => (u', Diverged)
  end.

Definition raise {A} (e : exn) : M R A := fun u => (u, Threw e).

Definition gets {A} (f : ChunkedUploader R -> A) : M R A := fun u => (u, Done (f u)).

Definition modify (f : ChunkedUploader R -> ChunkedUploader R) : M R unit :=
  fun u => (f u, Done tt).

(** A call on [self._upload_session]: the session changes in place, also
    when the call raises. *)
Definition call {A} (op : UploadSession R -> UploadSession R * reply A) : M R A :=
  fun u =>
    match op (upload_session u) with
    | (s, Returns a) => (set_upload_session s u, Done a)
    | (s, Raises e) => (set_upload_session s u, Threw e)
    end.
End Monad.

Declare Scope upl_scope.
Delimit Scope upl_scope with upl.
Notation "x <- m ;; k" := (bind m (fun x => k))
  (at level 100, m at next level, right associativity) : upl_scope.
Notation "m ;;; k" := (bind m (fun _ => k))
  (at level 100, right associativity) : upl_scope.

Definition aborted_message : string :=
  "The upload has been previously aborted. Please retry upload with a new upload session.".

Section Engine.
Context {R : Type} `{Remote R}.
Local Open Scope upl_scope.

(** [ChunkedUploader.__init__] *)
Definition init (session : UploadSession R) (stream : Stream) (size : Z)
  : ChunkedUploader R :=
  mkUploader session (Some stream) size [] sha1_new ∅ None false.

(** [InflightPart.upload] *)
Definition InflightPart_upload (p : InflightPart) : M R Part :=
  call (fun s => upload_part_bytes s (chunk p) (offset p) (total_size p)).

(** The [while copied_length < part_size] loop of [_get_next_part]. *)
Fixpoint read_chunk (fuel : nat) (size : Z) (st : Stream)
    (copied_length : Z) (chunk : bytes) : Stream * outcome bytes :=
  if copied_length <? size then
    match fuel with
    | O => (st, Diverged)
    | S fuel' =>
        match stream_read st (size - copied_length) with
        | (st', Raises e) => (st', Threw e)
        | (st', Returns None) => read_chunk fuel' size st' copied_length chunk
        | (st', Returns (Some bytes_read)) =>
            match bytes_read with
            | [] => (st', Done chunk)
            | _ :: _ =>
                read_chunk fuel' size st'
                  (copied_length + Z.of_nat (length bytes_read))
                  (chunk ++ bytes_read)
            end
        end
    end
  else (st, Done chunk).

Definition _get_next_part (fuel : nat) : M R InflightPart := fun u =>
  match content_stream u with
  | None => (u, Threw AssertionError)
  | Some st =>
      let offset := Z.of_nat (length (part_array u)) * part_size (upload_session u) in
      match read_chunk fuel (part_size (upload_session u)) st 0 [] with
      | (st', Done chunk) =>
          (set_content_stream (Some st') u,
           Done (mkInflightPart offset chunk (file_size u)))
      | (st', Threw e) => (set_content_stream (Some st') u, Threw e)
      | (st', Diverged) => (set_content_stream (Some st') u, Diverged)
      end
  end.

(** One pass through the body of the [while] loop of [_upload]. *)
Definition upload_body (fuel : nat) : M R unit :=
  next_part <- (fun u => match inflight_part u with
                         | Some p => ret p u
                         | None => _get_next_part fuel u
                         end) ;;
  modify (set_inflight_part (Some next_part)) ;;;
  modify (fun u => set_sha1 (sha1_update (sha1 u) (chunk next_part)) u) ;;;
  uploaded_part <- (fun u => match part_definitions u !! offset next_part with
                             | Some p => ret p u
                             | None => InflightPart_upload next_part u
                             end) ;;
  modify (set_inflight_part None) ;;;
  modify (fun u => set_part_array (part_array u ++ [uploaded_part]) u) ;;;
  modify (fun u => set_part_definitions
                     (<[offset next_part := uploaded_part]> (part_definitions u)) u).

Fixpoint upload_loop (fuel n : nat) (u : ChunkedUploader R)
  : ChunkedUploader R * outcome unit :=
  if Z.of_nat (length (part_array u)) <? total_parts (upload_session u) then
    match n with
    | O => (u, Diverged)
    | S n' => (upload_body fuel ;;; upload_loop fuel n') u
    end
  else (u, Done tt).

Definition _upload (fuel : nat) : M R unit := upload_loop fuel fuel.

(** [start] *)
Definition start (fuel : nat) : M R File :=
  aborted <- gets is_aborted ;;
  if (aborted : bool) then raise (BoxException aborted_message) else
  _upload fuel ;;;
  content_sha1 <- gets (fun u => sha1_digest (sha1 u)) ;;
  parts <- gets part_array ;;
  call (fun s => commit s content_sha1 parts).

(** The body of the [for part in parts] loop of [resume]. *)
Definition reconcile (u : ChunkedUploader R) (part : Part) : ChunkedUploader R :=
  let u1 :=
    match inflight_part u with
    | Some p => if p_offset part <=? offset p
                then set_part_array (part_array u ++ [part]) u else u
    | None => u
    end in
  let u2 :=
    match inflight_part u1 with
    | Some p => if p_offset part =? offset p
                then set_inflight_part None u1 else u1
    | None => u1
    end in
  set_part_definitions (<[p_offset part := part]> (part_definitions u2)) u2.

(** [resume] *)
Definition resume (fuel : nat) : M R File :=
  aborted <- gets is_aborted ;;
  if (aborted : bool) then raise (BoxException aborted_message) else
  parts <- call get_parts ;;
  modify (set_part_array []) ;;;
  modify (fun u => fold_left reconcile parts u) ;;;
  _upload fuel ;;;
  content_sha1 <- gets (fun u => sha1_digest (sha1 u)) ;;
  parts <- gets part_array ;;
  call (fun s => commit s content_sha1 parts).

(** [abort] *)
Definition abort : M R bool :=
  modify (set_content_stream None) ;;;
  modify (set_part_array []) ;;;
  modify (set_inflight_part None) ;;;
  modify (set_is_aborted true) ;;;
  call session_abort.

End Engine.

(** ** A remote end to run the engine against

    It keeps the persisted parts with their bytes, in the order they came,
    and answers [commit] as the service does: the digest must be that of the
    persisted content.  [fates] decides the next [upload_part_bytes] calls:
    the request is served, it fails before the part is persisted, or the part
    is persisted and the reply is lost. *)
Inductive Fate := Serve | Refuse | LoseReply.

Record Server := mkServer {
  stored : list (Part * bytes);
  fates : list Fate
}.

Fixpoint bytes_eqb (a b : bytes) : bool :=
  match a, b with
  | [], [] => true
  | x :: a', y :: b' => Byte.eqb x y && bytes_eqb a' b'
  | _, _ => false
  end.

Definition server_upload (r : Server) (part_bytes : bytes) (offset total_size : Z)
  : Server * reply Part :=
  let part := mkPart offset (Z.of_nat (length part_bytes))
                (Z.of_nat (length (stored r)) + 1) in
  match fates r with
  | [] => (mkServer (stored r ++ [(part, part_bytes)]) [], Returns part)
  | Serve :: rest => (mkServer (stored r ++ [(part, part_bytes)]) rest, Returns part)
  | Refuse :: rest => (mkServer (stored r) rest, Raises (SessionError 500))
  | LoseReply :: rest =>
      (mkServer (stored r ++ [(part, part_bytes)]) rest, Raises (SessionError 504))
  end.

Definition server_commit (r : Server) (content_sha1 : bytes) (parts : list Part)
  : Server * reply File :=
  if bytes_eqb content_sha1 (SHA1.hash (concat (map snd (stored r))))
  then (r, Returns (mkFile content_sha1 parts))
  else (r, Raises (SessionError 400)).

#[export] Instance server_remote : Remote Server := {
  remote_get_parts r := (r, Returns (map fst (stored r)));
  remote_upload_part_bytes := server_upload;
  remote_commit := server_commit;
  remote_abort r := (mkServer [] (fates r), Returns true)
}.

(** A stream that hands out one byte per read, every read ready. *)
Definition steady (content : bytes) : Stream :=
  mkStream content (fun _ => Deliver 0) 0%nat.

(** A stream whose first, third and fifth reads are not ready yet and whose
    ready reads hand out at most two bytes. *)
Definition slow (content : bytes) : Stream :=
  mkStream content
    (fun k => if (k <? 6)%nat && Nat.even k then NotReady else Deliver 1) 0%nat.

Definition session0 (parts size : Z) (fs : list Fate) : UploadSession Server :=
  mkSession parts size (mkServer [] fs) [].

(** ** Vocabulary of the properties *)

Section Vocabulary.
Context {R : Type} `{Remote R}.
Local Open Scope upl_scope.

(** The common tail of [start] and [resume]: the loop, the digest, the
    commit. *)
Definition upload_and_commit (fuel : nat) : M R File :=
  _upload fuel ;;;
  content_sha1 <- gets (fun u => sha1_digest (sha1 u)) ;;
  parts <- gets part_array ;;
  call (fun s => commit s content_sha1 parts).

(** The state in which [resume] enters the upload loop, for a listing
    [parts] that left the session as [s]. *)
Definition reconciled (s : UploadSession R) (parts : list Part)
    (u : ChunkedUploader R) : ChunkedUploader R :=
  fold_left reconcile parts (set_part_array [] (set_upload_session s u)).

Definition of_reply {A} (a : reply A) : outcome A :=
  match a with
  | Returns x => Done x
  | Raises e => Threw e
  end.

(** The three public operations, to run a caller's sequence of them. *)
Inductive Op := OpStart | OpResume | OpAbort.

Inductive Answer :=
| AnsFile (o : outcome File)
| AnsBool (o : outcome bool).

Definition run_op (fuel : nat) (op : Op) (u : ChunkedUploader R)
  : ChunkedUploader R * Answer :=
  match op with
  | OpStart => let '(u', o) := start fuel u in (u', AnsFile o)
  | OpResume => let '(u', o) := resume fuel u in (u', AnsFile o)
  | OpAbort => let '(u', o) := abort u in (u', AnsBool o)
  end.

Fixpoint run_ops (fuel : nat) (ops : list Op) (u : ChunkedUploader R)
  : ChunkedUploader R * list Answer :=
  match ops with
  | [] => (u, [])
  | op :: rest =>
      let '(u1, a) := run_op fuel op u in
      let '(u2, answers) := run_ops fuel rest u1 in
      (u2, a :: answers)
  end.

Definition aborted_error : outcome File :=
  Threw (BoxException aborted_message).
End Vocabulary.

(** Words of the specification, to compare with what [resume] builds. *)

(** The longest prefix of the listing whose offsets are at most [x]. *)
Fixpoint longest_prefix_upto (x : Z) (parts : list Part) : list Part :=
  match parts with
  | [] => []
  | p :: rest => if p_offset p <=? x then p :: longest_prefix_upto x rest else []
  end.

(** What [resume] keeps of a listing while a part at offset [x] is in
    flight: the parts at offsets up to [x], until the one at [x] itself. *)
Fixpoint kept_upto (x : Z) (parts : list Part) : list Part :=
  match parts with
  | [] => []
  | p :: rest =>
      if p_offset p =? x then [p]
      else if p_offset p <? x then p :: kept_upto x rest
      else kept_upto x rest
  end.

(** The cache after every part of a listing was entered by its offset. *)
Definition cache_all (parts : list Part) (d : gmap Z Part) : gmap Z Part :=
  fold_left (fun d p => <[p_offset p := p]> d) parts d.

Definition ascending (parts : list Part) : Prop :=
  StronglySorted (fun a b => p_offset a < p_offset b) parts.

(** The last part of a listing that has the offset [o], if there is one. *)
Definition last_listed (o : Z) (parts : list Part) : option Part :=
  find (fun p => p_offset p =? o) (rev parts).

(** ** Vocabulary about streams and chunks *)

(** Every read is followed, sooner or later, by a read that does not answer
    [None]. *)
Definition responsive (sch : nat -> ReadEvent) : Prop :=
  forall i, exists j, (i <= j)%nat /\ sch j <> NotReady.

(** No read raises. *)
Definition faultless (sch : nat -> ReadEvent) : Prop :=
  forall i, sch i <> Fault.

(** The first [n] chunks of [size] bytes of a content; past its end the
    chunks are short, then empty. *)
Fixpoint chunks_of (size n : nat) (content : bytes) : list bytes :=
  match n with
  | O => []
  | S n' => take size content :: chunks_of size n' (drop size content)
  end.

(** The contract of [upload_part_bytes]: the record it returns is the record
    of the part it was sent, at the offset and of the size that was sent. *)
Definition honest (R : Type) `{Remote R} : Prop :=
  forall r part_bytes offset total_size r' p,
    remote_upload_part_bytes r part_bytes offset total_size = (r', Returns p) ->
    p_offset p = offset /\ p_size p = Z.of_nat (length part_bytes).

Section Progress.
Context {R : Type}.

(** The number of passes the upload loop still has to make. *)
Definition passes_left (u : ChunkedUploader R) : nat :=
  Z.to_nat (total_parts (upload_session u) - Z.of_nat (length (part_array u))).

(** The state of a new engine after some passes over a content [c] in
    parts of [ps] bytes: the stream is at the next part, the cached offsets
    are those of the parts done, and the [j]-th record is that of the
    [j]-th part. *)
Definition in_step (c : bytes) (ps T fs : Z) (u : ChunkedUploader R) : Prop :=
  inflight_part u = None
  /\ part_size (upload_session u) = ps
  /\ total_parts (upload_session u) = T
  /\ file_size u = fs
  /\ (exists st, content_stream u = Some st
        /\ pending st = drop (length (part_array u) * Z.to_nat ps) c)
  /\ (forall k, is_Some (part_definitions u !! k) ->
        exists j, (j < length (part_array u))%nat /\ k = Z.of_nat j * ps)
  /\ (forall j p, part_array u !! j = Some p ->
        p_offset p = Z.of_nat j * ps
        /\ p_size p = Z.of_nat (length (take (Z.to_nat ps) (drop (j * Z.to_nat ps) c)))).
End Progress.

(** The request [c] is an upload at offset [k]. *)
Definition uploads_at (k : Z) (c : Call) : Prop :=
  exists part_bytes total_size, c = CallUploadPartBytes part_bytes k total_size.

(** ** Sample runs: a file of five bytes in parts of two *)

Definition content5 : bytes := [x01; x02; x03; x04; x05].

Definition fresh (fs : list Fate) : ChunkedUploader Server :=
  init (session0 3 2 fs) (slow content5) 5.

(** The engine after a [start] whose second upload was refused. *)
Definition interrupted : ChunkedUploader Server :=
  fst (start 20 (fresh [Serve; Refuse])).

(** A new engine, in another process, on a session that already holds the
    first part. *)
Definition taken_over : ChunkedUploader Server :=
  init (mkSession 3 2 (mkServer [(mkPart 0 2 1, [x01; x02])] []) [])
       (steady content5) 5.

(** A new engine whose stream ends after three of the five bytes. *)
Definition starved : ChunkedUploader Server :=
  init (session0 3 2 []) (slow [x01; x02; x03]) 5.

(** The file a run returned, if it did. *)
Definition returned (o : outcome File) : File :=
  match o with
  | Done f => f
  | _ => mkFile [] []
  end.

(** ** More sample runs *)

(** A stream that hands out one byte, then raises at its second read. *)
Definition breaking (content : bytes) : Stream :=
  mkStream content (fun k => if (k =? 1)%nat then Fault else Deliver 0) 0%nat.

(** A new engine on the breaking stream. *)
Definition broken : ChunkedUploader Server :=
  init (session0 3 2 []) (breaking content5) 5.

(** The engine after the first pass of a run whose second upload will be
    refused. *)
Definition after_first_pass : ChunkedUploader Server :=
  fst (upload_body 20 (fresh [Serve; Refuse])).

(** ** Vocabulary about the requests of a run *)

Definition in_cache (d : gmap Z Part) (k : Z) : bool :=
  match d !! k with
  | Some _ => true
  | None => false
  end.

(** The uploads that go with a list of chunks taken as parts [i], [i+1],
    ... of [ps] bytes: one per chunk, in order, at the offset of its part,
    but none for a part whose offset is [cached]. *)
Fixpoint planned_uploads (cached : Z -> bool) (ps fs : Z) (i : nat)
    (chunks : list bytes) : list Call :=
  match chunks with
  | [] => []
  | c :: rest =>
      if cached (Z.of_nat i * ps)
      then planned_uploads cached ps fs (S i) rest
      else CallUploadPartBytes c (Z.of_nat i * ps) fs
           :: planned_uploads cached ps fs (S i) rest
  end.

(** The request [c] is an upload. *)
Definition is_upload (c : Call) : Prop := exists k, uploads_at k c.

(** The engine in which the reply to the second upload was lost: the part
    is persisted, the engine has it in flight. *)
Definition reply_lost : ChunkedUploader Server :=
  fst (start 20 (fresh [Serve; LoseReply])).

(** A new engine on a session that already holds every part. *)
Definition all_there : ChunkedUploader Server :=
  init (mkSession 3 2
          (mkServer [(mkPart 0 2 1, [x01; x02]); (mkPart 2 2 2, [x03; x04]);
                     (mkPart 4 1 3, [x05])] []) [])
       (steady content5) 5.

(** An engine with the part at offset 2 in flight, on a session that lists
    the part at offset 2 before the part at offset 0. *)
Definition out_of_order : ChunkedUploader Server :=
  mkUploader
    (mkSession 3 2
       (mkServer [(mkPart 2 2 1, [x03; x04]); (mkPart 0 2 2, [x01; x02])] []) [])
    (Some (steady [x05])) 5 [] [[x01; x02]; [x03; x04]] ∅
    (Some (mkInflightPart 2 [x03; x04] 5)) false.

(** A stream that hands out one byte per read and raises at its fourth
    read. *)
Definition faltering (content : bytes) : Stream :=
  mkStream content (fun k => if (k =? 3)%nat then Fault else Deliver 0) 0%nat.

(** The engine after a [start] whose stream raised while the second part
    was being read: the first part is uploaded and hashed, no part is in
    flight, and the stream stands after the third byte. *)
Definition between_parts : ChunkedUploader Server :=
  fst (start 20 (init (session0 3 2 []) (faltering content5) 5)).

(** ** Vocabulary about the journal *)

(** The session, and the engine, with another journal: nothing else
    changed. *)
Definition session_with_journal {R : Type} (j : list Call) (s : UploadSession R)
  : UploadSession R :=
  mkSession (total_parts s) (part_size s) (remote s) j.

Definition with_journal {R : Type} (j : list Call) (u : ChunkedUploader R)
  : ChunkedUploader R :=
  set_upload_session (session_with_journal j (upload_session u)) u.

(** The engine with [j] put before its journal. *)
Definition prefix_journal {R : Type} (j : list Call) (u : ChunkedUploader R)
  : ChunkedUploader R :=
  with_journal (j ++ journal (upload_session u)) u.

(** The result of a method, with [j] put before the journal. *)
Definition lift_journal {R A : Type} (j : list Call)
    (r : ChunkedUploader R * outcome A) : ChunkedUploader R * outcome A :=
  (prefix_journal j (fst r), snd r).

(** * The LRU cache ([boxsdk/util/lru_cache.py]) *)

Module LRUCache.
Section Model.
Context {K V : Type} `{EqDecision K}.

(** [collections.OrderedDict]: the items in insertion order, oldest first,
    no key twice. *)
Definition OrderedDict : Type := list (K * V).

(** [d.pop(key)]: the value and the dict without the item, or [KeyError]
    ([None]) when the key is missing. *)
Fixpoint od_pop (key : K) (d : OrderedDict) : option (V * OrderedDict) :=
  match d with
  | [] => None
  | (k, v) :: rest =>
      if decide (k = key) then Some (v, rest)
      else match od_pop key rest with
           | Some (v', rest') => Some (v', (k, v) :: rest')
           | None => None
           end
  end.

(** [d[key] = value]: a key that is there keeps its place, a new key goes
    to the end. *)
Fixpoint od_setitem (key : K) (value : V) (d : OrderedDict) : OrderedDict :=
  match d with
  | [] => [(key, value)]
  | (k, v) :: rest =>
      if decide (k = key) then (k, value) :: rest
      else (k, v) :: od_setitem key value rest
  end.

(** [d.popitem(last=False)]: the oldest item and the rest, or [KeyError]
    on an empty dict. *)
Definition od_popitem_first (d : OrderedDict) : option ((K * V) * OrderedDict) :=
  match d with
  | [] => None
  | item :: rest => Some (item, rest)
  end.

Record t := mk { capacity : Z; cache : OrderedDict }.

(** The outcome of a method: it returns, or it raises [KeyError]. *)
Inductive answer (A : Type) :=
| Ok (a : A)
| KeyError.
Arguments Ok {A} a.
Arguments KeyError {A}.

(** [__init__] *)
Definition init (capacity : Z) : t := mk capacity [].

(** [get] *)
Definition get (key : K) (c : t) : t * answer V :=
  match od_pop key (cache c) with
  | None => (c, KeyError)
  | Some (value, d) => (mk (capacity c) (od_setitem key value d), Ok value)
  end.

(** [set] *)
Definition set (key : K) (value : V) (c : t) : t * answer unit :=
  match od_pop key (cache c) with
  | Some (_, d) => (mk (capacity c) (od_setitem key value d), Ok tt)
  | None =>
      if Z.of_nat (length (cache c)) >=? capacity c then
        match od_popitem_first (cache c) with
        | None => (c, KeyError)
        | Some (_, d) => (mk (capacity c) (od_setitem key value d), Ok tt)
        end
      else (mk (capacity c) (od_setitem key value (cache c)), Ok tt)
  end.

(** [d.get(key)]: the value under the key, if any. *)
Fixpoint od_get (key : K) (d : OrderedDict) : option V :=
  match d with
  | [] => None
  | (k, v) :: rest => if decide (k = key) then Some v else od_get key rest
  end.

(** A caller's operation on the cache, and a run of them; a [set] or [get]
    that raises leaves the cache as it is. *)
Inductive op :=
| Get (key : K)
| Set_ (key : K) (value : V).

Definition step (c : t) (o : op) : t :=
  match o with
  | Get key => fst (get key c)
  | Set_ key value => fst (set key value c)
  end.

Definition run (ops : list op) (c : t) : t := fold_left step ops c.

(** The keys of the cache, oldest first. *)
Definition keys (c : t) : list K := map fst (cache c).

(** The cache holds no key twice and no more items than its capacity. *)
Definition well_formed (c : t) : Prop :=
  NoDup (keys c) /\ Z.of_nat (length (cache c)) <= capacity c.
End Model.
Arguments t : clear implicits.
Arguments op : clear implicits.
Arguments OrderedDict : clear implicits.
Arguments Ok {A} a.
Arguments KeyError {A}.
End LRUCache.

(** A cache of two items, ["a"] older than ["b"]. *)
Definition lru_ab : LRUCache.t string Z :=
  LRUCache.mk 2 [("a"%string, 1); ("b"%string, 2)].

(** * Paging pointers ([boxsdk/pagination]) *)

(** What a comparison of an [int] with [None] does depends on the Python
    that runs the SDK (an answer in Python 2, a [TypeError] in Python 3); the
    two comparisons the code can reach are parameters of the model. *)
Inductive PageError :=
| PageRuntimeError (limit : Z)
| PageKeyError
| PageTypeError.

Inductive page_answer (A : Type) :=
| PageOk (a : A)
| PageRaise (e : PageError).
Arguments PageOk {A} a.
Arguments PageRaise {A} e.

(** The fields of a page response that the pointers read; [None] is a key
    that is missing. *)
Record LimitOffsetResponse := mkLimitOffsetResponse {
  total_count : option Z;
  limit : option Z
}.

Module LimitOffsetBasedObjectCollection.
Section Model.
(** [0 < None] and [None < total_count]. *)
Variable zero_lt_none : page_answer bool.
Variable none_lt_int : page_answer bool.

Record t := mk { _limit : option Z; _offset : option Z }.

(** [x or 0] *)
Definition or_zero (x : option Z) : Z :=
  match x with
  | Some v => v
  | None => 0
  end.

(** The end of [_update_pointer_to_next_page], from the de-none-ifying of
    the offset on. *)
Definition advance (total_count : Z) (c : t) : t :=
  let offset := or_zero (_offset c) in
  let limit := or_zero (_limit c) in
  if total_count >=? offset + limit
  then mk (_limit c) (Some (offset + limit))
  else mk (_limit c) (Some total_count).

Definition _update_pointer_to_next_page (response_object : LimitOffsetResponse)
    (c : t) : t * page_answer unit :=
  match total_count response_object with
  | None => (c, PageRaise PageKeyError)
  | Some total_count =>
      match limit response_object with
      | Some new_limit =>
          let old_limit := _limit c in
          let c1 := mk (Some new_limit) (_offset c) in
          if new_limit <=? 0 then
            match (match old_limit with
                   | Some old => PageOk (0 <? old)
                   | None => zero_lt_none
                   end) with
            | PageOk true =>
                (mk (Some new_limit) (Some total_count),
                 PageRaise (PageRuntimeError new_limit))
            | PageOk false => (advance total_count c1, PageOk tt)
            | PageRaise e => (c1, PageRaise e)
            end
          else (advance total_count c1, PageOk tt)
      | None => (advance total_count c, PageOk tt)
      end
  end.

Definition _has_more_pages (response_object : LimitOffsetResponse) (c : t)
  : page_answer bool :=
  match _offset c with
  | Some offset =>
      match total_count response_object with
      | Some total_count => PageOk (offset <? total_count)
      | None => PageRaise PageKeyError
      end
  | None =>
      match total_count response_object with
      | Some _ => none_lt_int
      | None => PageRaise PageKeyError
      end
  end.

Definition next_pointer (c : t) : option Z := _offset c.

(** The pointer after [n] pages that all carry the same response fields;
    a page whose update raises ends the paging. *)
Fixpoint paging (n : nat) (response_object : LimitOffsetResponse) (c : t)
  : t * page_answer unit :=
  match n with
  | O => (c, PageOk tt)
  | S n' =>
      match _update_pointer_to_next_page response_object c with
      | (c', PageOk _) => paging n' response_object c'
      | (c', PageRaise e) => (c', PageRaise e)
      end
  end.
End Model.
End LimitOffsetBasedObjectCollection.

(** The field of a page response that the marker pointer reads: the key is
    missing, or it holds [null], or a string. *)
Inductive NextMarker :=
| MarkerMissing
| MarkerNull
| MarkerString (s : string).

(** A value of the parameters of the next page request. *)
Inductive ParamValue :=
| ParamBool (b : bool)
| ParamStr (s : string).

Module MarkerBasedObjectCollection.

Record t := mk {
  _marker : option string;
  _supports_limit_offset_paging : bool
}.

(** [response_object.get('next_marker') or None] *)
Definition _get_next_marker_from_response_object (next_marker : NextMarker)
  : option string :=
  match next_marker with
  | MarkerString EmptyString => None
  | MarkerString s => Some s
  | MarkerNull => None
  | MarkerMissing => None
  end.

Definition _update_pointer_to_next_page (next_marker : NextMarker) (c : t) : t :=
  mk (_get_next_marker_from_response_object next_marker)
     (_supports_limit_offset_paging c).

(** [bool(...)] of a string or [None]: true for a string that is not
    empty. *)
Definition _has_more_pages (next_marker : NextMarker) (c : t) : bool :=
  match _get_next_marker_from_response_object next_marker with
  | Some EmptyString => false
  | Some _ => true
  | None => false
  end.

Definition _next_page_pointer_params (c : t) : gmap string ParamValue :=
  let pointer_params : gmap string ParamValue := ∅ in
  let pointer_params :=
    if _supports_limit_offset_paging c
    then <["useMarker"%string := ParamBool true]> pointer_params
    else pointer_params in
  match _marker c with
  | Some marker => <["marker"%string := ParamStr marker]> pointer_params
  | None => pointer_params
  end.

Definition next_pointer (c : t) : option string := _marker c.

End MarkerBasedObjectCollection.

(** * The shared link header ([boxsdk/util/shared_link.py]) *)

Definition get_shared_link_header (shared_link : string) (password : option string)
  : gmap string string :=
  let shared_link_password :=
    match password with
    | Some p => ("&shared_link_password=" ++ p)%string
    | None => ""%string
    end in
  let box_api_header := ("shared_link=" ++ shared_link ++ shared_link_password)%string in
  {[ "BoxApi"%string := box_api_header ]}.

(** A listing of 25 items in pages of 10, as Python 3 runs it. *)
Definition py3 : page_answer bool := PageRaise PageTypeError.

Definition page_of_25 : LimitOffsetResponse := mkLimitOffsetResponse (Some 25) (Some 10).

Definition collection0 : LimitOffsetBasedObjectCollection.t :=
  LimitOffsetBasedObjectCollection.mk (Some 10) (Some 0).

(** * Properties *)

(** ** The digest *)

Example sha1_abc :
  SHA1.hash [x61; x62; x63]
  = [xa9; x99; x3e; x36; x47; x06; x81; x6a; xba; x3e;
     x25; x71; x78; x50; xc2; x6c; x9c; xd0; xd8; x9d].
Proof. vm_compute. reflexivity. Qed.

Example sha1_empty :
  sha1_digest sha1_new
  = [xda; x39; xa3; xee; x5e; x6b; x4b; x0d; x32; x55;
     xbf; xef; x95; x60; x18; x90; xaf; xd8; x07; x09].
Proof. vm_compute. reflexivity. Qed.

Example sha1_two_blocks :
  SHA1.hash (concat (repeat [x61; x62; x63; x64; x65; x66; x67; x68] 8))
  = [xcb; xd8; xc1; xee; x07; x79; x11; x82; x16; x56;
     x22; x90; x57; x9a; x90; x2d; xa9; xc7; x08; x0a].
Proof. vm_compute. reflexivity. Qed.
(** ** Reconciliation of [resume] with the listing *)

Section Reconcile.
Context {R : Type} `{Remote R}.
Implicit Type u : ChunkedUploader R.

Lemma fold_reconcile_idle parts u :
  inflight_part u = None ->
  fold_left reconcile parts u
  = set_part_definitions (cache_all parts (part_definitions u)) u.
Proof.
  revert u. induction parts as [|p parts IH]; intros u Hu.
  - destruct u; reflexivity.
  - cbn [fold_left]. rewrite IH.
    + unfold reconcile. rewrite Hu. cbn. rewrite Hu. destruct u; reflexivity.
    + unfold reconcile. rewrite Hu. cbn. rewrite Hu. destruct u; assumption.
Qed.

Lemma fold_reconcile_inflight parts u ip :
  inflight_part u = Some ip ->
  fold_left reconcile parts u
  = set_part_definitions (cache_all parts (part_definitions u))
      (set_inflight_part
         (if existsb (fun p => p_offset p =? offset ip) parts then None else Some ip)
         (set_part_array (part_array u ++ kept_upto (offset ip) parts) u)).
Proof.
  revert u. induction parts as [|p parts IH]; intros u Hu.
  - destruct u; cbn in *. rewrite app_nil_r. subst. reflexivity.
  - cbn [fold_left existsb kept_upto].
    destruct (Z.eqb_spec (p_offset p) (offset ip)) as [E|E].
    + rewrite fold_reconcile_idle.
      * unfold reconcile. rewrite Hu.
        replace (p_offset p <=? offset ip) with true by (symmetry; apply Z.leb_le; lia).
        cbn. rewrite Hu.
        replace (p_offset p =? offset ip) with true by (symmetry; apply Z.eqb_eq; lia).
        destruct u; reflexivity.
      * unfold reconcile. rewrite Hu.
        replace (p_offset p <=? offset ip) with true by (symmetry; apply Z.leb_le; lia).
        cbn. rewrite Hu.
        replace (p_offset p =? offset ip) with true by (symmetry; apply Z.eqb_eq; lia).
        destruct u; reflexivity.
    + assert (Hne : (p_offset p =? offset ip) = false) by (apply Z.eqb_neq; lia).
      destruct (Z.ltb_spec (p_offset p) (offset ip)) as [L|L].
      * assert (Hle : (p_offset p <=? offset ip) = true) by (apply Z.leb_le; lia).
        rewrite (IH (reconcile u p)).
        -- unfold reconcile. rewrite Hu, Hle. cbn. rewrite Hu, Hne. cbn.
           rewrite <- app_assoc. destruct u; reflexivity.
        -- unfold reconcile. rewrite Hu, Hle. cbn. rewrite Hu, Hne.
           destruct u; assumption.
      * assert (Hle : (p_offset p <=? offset ip) = false) by (apply Z.leb_gt; lia).
        rewrite (IH (reconcile u p)).
        -- unfold reconcile. rewrite Hu, Hle. cbn. rewrite Hu, Hne. cbn.
           destruct u; reflexivity.
        -- unfold reconcile. rewrite Hu, Hle. cbn. rewrite Hu, Hne.
           destruct u; assumption.
Qed.
End Reconcile.

Lemma cache_all_snoc parts p d :
  cache_all (parts ++ [p]) d = <[p_offset p := p]> (cache_all parts d).
Proof. unfold cache_all. rewrite fold_left_app. reflexivity. Qed.

Lemma lookup_cache_all_other parts d o :
  (forall p, p ∈ parts -> p_offset p <> o) ->
  cache_all parts d !! o = d !! o.
Proof.
  induction parts as [|p parts IH] using rev_ind; intros Hno; [reflexivity|].
  rewrite cache_all_snoc, lookup_insert_ne.
  - apply IH. intros q Hq. apply Hno. apply elem_of_app. now left.
  - apply Hno. apply elem_of_app. right. apply list_elem_of_singleton. reflexivity.
Qed.

(** Every offset of the listing is a key of the cache afterwards, and it
    maps to a listed part of that offset. *)
Lemma lookup_cache_all_listed parts d p :
  p ∈ parts ->
  exists q, q ∈ parts /\ p_offset q = p_offset p
            /\ cache_all parts d !! p_offset p = Some q.
Proof.
  induction parts as [|p' parts IH] using rev_ind; intros Hp.
  - inversion Hp.
  - rewrite cache_all_snoc.
    destruct (Z.eq_dec (p_offset p') (p_offset p)) as [E|E].
    + exists p'. split; [|split; [exact E|]].
      * apply elem_of_app. right. apply list_elem_of_singleton. reflexivity.
      * rewrite E. apply lookup_insert_eq.
    + apply elem_of_app in Hp. destruct Hp as [Hp|Hp].
      * destruct (IH Hp) as (q & Hq & Hoff & Hlook).
        exists q. split; [|split; [exact Hoff|]].
        -- apply elem_of_app. now left.
        -- rewrite lookup_insert_ne by exact E. exact Hlook.
      * apply list_elem_of_singleton in Hp. subst p'. congruence.
Qed.

Lemma lookup_cache_all_ascending parts d p :
  ascending parts -> p ∈ parts ->
  cache_all parts d !! p_offset p = Some p.
Proof.
  unfold ascending. revert d.
  induction parts as [|q parts IH]; intros d Hs Hp; [inversion Hp|].
  apply StronglySorted_cons in Hs. destruct Hs as [Hq Hs].
  change (cache_all (q :: parts) d)
    with (cache_all parts (<[p_offset q := q]> d)).
  apply elem_of_cons in Hp. destruct Hp as [->|Hp].
  - rewrite lookup_cache_all_other; [apply lookup_insert_eq|].
    intros r Hr. rewrite Forall_forall in Hq. specialize (Hq r Hr). lia.
  - apply IH; assumption.
Qed.

(** The cache after a listing was entered holds, under an offset, the last
    part listed with it, and under the other keys what it held before. *)
Lemma lookup_cache_all_last parts d o :
  cache_all parts d !! o
  = match last_listed o parts with
    | Some q => Some q
    | None => d !! o
    end.
Proof.
  unfold last_listed.
  induction parts as [|p parts IH] using rev_ind; [reflexivity|].
  rewrite cache_all_snoc, rev_app_distr. cbn [rev app find].
  destruct (Z.eqb_spec (p_offset p) o) as [E|E].
  - rewrite E. apply lookup_insert_eq.
  - rewrite lookup_insert_ne by exact E. exact IH.
Qed.

Lemma last_listed_Some o parts q :
  last_listed o parts = Some q -> q ∈ parts /\ p_offset q = o.
Proof.
  unfold last_listed. intros Hq. apply find_some in Hq. destruct Hq as (Hin & E).
  split; [|apply Z.eqb_eq; exact E].
  apply list_elem_of_In. apply in_rev. exact Hin.
Qed.

Lemma last_listed_is_Some parts p :
  p ∈ parts -> is_Some (last_listed (p_offset p) parts).
Proof.
  intros Hp.
  destruct (lookup_cache_all_listed parts ∅ p Hp) as (q & _ & _ & Hq).
  rewrite lookup_cache_all_last in Hq.
  destruct (last_listed (p_offset p) parts); [eauto|].
  rewrite lookup_empty in Hq. discriminate.
Qed.

Lemma last_listed_ascending parts p :
  ascending parts -> p ∈ parts -> last_listed (p_offset p) parts = Some p.
Proof.
  intros Hs Hp.
  pose proof (lookup_cache_all_ascending parts ∅ p Hs Hp) as Hq.
  rewrite lookup_cache_all_last in Hq.
  destruct (last_listed (p_offset p) parts); [exact Hq|].
  rewrite lookup_empty in Hq. discriminate.
Qed.

Lemma kept_upto_beyond x parts :
  Forall (fun q => x < p_offset q) parts -> kept_upto x parts = [].
Proof.
  induction 1 as [|q parts Hq _ IH]; [reflexivity|].
  cbn. destruct (Z.eqb_spec (p_offset q) x); [lia|].
  destruct (Z.ltb_spec (p_offset q) x); [lia|]. exact IH.
Qed.

Lemma longest_prefix_upto_beyond x parts :
  Forall (fun q => x < p_offset q) parts -> longest_prefix_upto x parts = [].
Proof.
  destruct 1 as [|q parts Hq _]; [reflexivity|].
  cbn. destruct (Z.leb_spec (p_offset q) x); [lia|reflexivity].
Qed.

(** On a listing in ascending offset order the parts [resume] keeps are the
    longest prefix of the listing up to the offset in flight. *)
Lemma kept_upto_ascending x parts :
  ascending parts -> kept_upto x parts = longest_prefix_upto x parts.
Proof.
  unfold ascending.
  induction parts as [|p parts IH]; intros Hs; [reflexivity|].
  apply StronglySorted_cons in Hs. destruct Hs as [Hp Hs].
  cbn. destruct (Z.eqb_spec (p_offset p) x) as [E|E].
  - replace (p_offset p <=? x) with true by (symmetry; apply Z.leb_le; lia).
    rewrite longest_prefix_upto_beyond; [reflexivity|].
    eapply Forall_impl; [exact Hp|]. cbn. intros; lia.
  - destruct (Z.ltb_spec (p_offset p) x) as [L|L].
    + replace (p_offset p <=? x) with true by (symmetry; apply Z.leb_le; lia).
      rewrite IH by exact Hs. reflexivity.
    + replace (p_offset p <=? x) with false by (symmetry; apply Z.leb_gt; lia).
      apply kept_upto_beyond.
      eapply Forall_impl; [exact Hp|]. cbn. intros; lia.
Qed.

Lemma existsb_offset x (parts : list Part) :
  existsb (fun p => p_offset p =? x) parts = true
  <-> exists p, p ∈ parts /\ p_offset p = x.
Proof.
  rewrite existsb_exists. split; intros (p & Hp & E); exists p.
  - split; [apply list_elem_of_In; exact Hp | apply Z.eqb_eq; exact E].
  - split; [apply list_elem_of_In; exact Hp | apply Z.eqb_eq; exact E].
Qed.

Section Unfold.
Context {R : Type} `{Remote R}.
Implicit Type u : ChunkedUploader R.

Lemma start_unfold fuel u :
  is_aborted u = false -> start fuel u = upload_and_commit fuel u.
Proof.
  intros Hu. unfold start, upload_and_commit, bind, gets. cbn.
  rewrite Hu. reflexivity.
Qed.

Lemma resume_unfold fuel u s parts :
  is_aborted u = false ->
  get_parts (upload_session u) = (s, Returns parts) ->
  resume fuel u = upload_and_commit fuel (reconciled s parts u).
Proof.
  intros Hu Hg. unfold resume, upload_and_commit, reconciled, bind, gets, call, modify.
  cbn. rewrite Hu, Hg. reflexivity.
Qed.

Lemma start_aborted fuel u :
  is_aborted u = true -> start fuel u = (u, aborted_error).
Proof. intros Hu. unfold start, bind, gets. cbn. rewrite Hu. reflexivity. Qed.

Lemma resume_aborted fuel u :
  is_aborted u = true -> resume fuel u = (u, aborted_error).
Proof. intros Hu. unfold resume, bind, gets. cbn. rewrite Hu. reflexivity. Qed.
End Unfold.

Section Resume.
Context {R : Type} `{Remote R}.
Implicit Type u : ChunkedUploader R.

(** C3, as the code has it.  With a part in flight, [resume] enters the
    upload loop with the committed parts rebuilt from the listing, taken in
    the order of the listing: every part at an offset below the offset in
    flight that comes before the first part at the offset in flight, then
    that part, and nothing after it.  For a listing in strictly ascending
    offset order this is the longest prefix of the listing whose offsets are
    at most the offset in flight.  The in-flight marker is cleared exactly
    when a listed part has the offset in flight.  Every listed part is
    entered in the definitions cache under its offset, contiguous or not:
    afterwards the cache holds under an offset of the listing the last part
    listed with it (the part itself when the offsets ascend), and its other
    entries are as before. *)
Theorem C3_resume_rebuilds_committed_prefix fuel u ip s parts :
  is_aborted u = false ->
  inflight_part u = Some ip ->
  get_parts (upload_session u) = (s, Returns parts) ->
  resume fuel u = upload_and_commit fuel (reconciled s parts u)
  /\ part_array (reconciled s parts u) = kept_upto (offset ip) parts
  /\ (ascending parts ->
      part_array (reconciled s parts u) = longest_prefix_upto (offset ip) parts)
  /\ (inflight_part (reconciled s parts u) = None
      <-> exists p, p ∈ parts /\ p_offset p = offset ip)
  /\ (inflight_part (reconciled s parts u) = Some ip
      <-> ~ exists p, p ∈ parts /\ p_offset p = offset ip)
  /\ (forall o,
        part_definitions (reconciled s parts u) !! o
        = match last_listed o parts with
          | Some q => Some q
          | None => part_definitions u !! o
          end)
  /\ (forall p, p ∈ parts ->
        exists q, last_listed (p_offset p) parts = Some q
          /\ q ∈ parts /\ p_offset q = p_offset p
          /\ part_definitions (reconciled s parts u) !! p_offset p = Some q)
  /\ (ascending parts -> forall p, p ∈ parts ->
        part_definitions (reconciled s parts u) !! p_offset p = Some p).
Proof.
  intros Hab Hin Hget.
  split; [apply resume_unfold; assumption|].
  unfold reconciled.
  rewrite (fold_reconcile_inflight parts _ ip) by exact Hin.
  cbn [part_array inflight_part part_definitions set_part_definitions
       set_inflight_part set_part_array set_upload_session app].
  pose proof (existsb_offset (offset ip) parts) as Hex.
  split; [reflexivity|].
  split; [intros Hasc; apply kept_upto_ascending; exact Hasc|].
  split; [|split; [|split; [|split]]].
  - destruct (existsb _ parts); split; try discriminate.
    + intros _. apply Hex. reflexivity.
    + reflexivity.
    + intros Hp. apply Hex in Hp. discriminate.
  - destruct (existsb _ parts); split; try discriminate.
    + intros Hno. exfalso. apply Hno, Hex. reflexivity.
    + intros _ Hp. apply Hex in Hp. discriminate.
    + reflexivity.
  - intros o. apply lookup_cache_all_last.
  - intros p Hp. destruct (last_listed_is_Some parts p Hp) as [q Hq].
    exists q. split; [exact Hq|].
    destruct (last_listed_Some _ _ _ Hq) as (Hin' & Hoff).
    split; [exact Hin'|]. split; [exact Hoff|].
    rewrite lookup_cache_all_last, Hq. reflexivity.
  - intros Hasc p Hp. apply lookup_cache_all_ascending; assumption.
Qed.

End Resume.

(** C3, as the specification words it, fails on a listing that is not in
    ascending order.  The part at offset 2 is in flight and the session
    lists the part at offset 2, then the part at offset 0: both offsets are
    at most 2, so the longest prefix of the listing with offsets at most 2
    is the whole listing, but [resume] keeps the part at offset 2 only, the
    marker being cleared when that part is met. *)
Lemma C3_counterexample :
  is_aborted out_of_order = false
  /\ inflight_part out_of_order = Some (mkInflightPart 2 [x03; x04] 5)
  /\ get_parts (upload_session out_of_order)
     = (fst (get_parts (upload_session out_of_order)),
        Returns [mkPart 2 2 1; mkPart 0 2 2])
  /\ longest_prefix_upto 2 [mkPart 2 2 1; mkPart 0 2 2]
     = [mkPart 2 2 1; mkPart 0 2 2]
  /\ part_array
       (reconciled (fst (get_parts (upload_session out_of_order)))
          [mkPart 2 2 1; mkPart 0 2 2] out_of_order)
     = [mkPart 2 2 1]
  /\ part_array
       (reconciled (fst (get_parts (upload_session out_of_order)))
          [mkPart 2 2 1; mkPart 0 2 2] out_of_order)
     <> longest_prefix_upto 2 [mkPart 2 2 1; mkPart 0 2 2].
Proof. repeat split; discriminate. Qed.

Lemma C3_witness :
  part_array
    (reconciled (fst (get_parts (upload_session reply_lost)))
       [mkPart 0 2 1; mkPart 2 2 2] reply_lost)
  = [mkPart 0 2 1; mkPart 2 2 2]
  /\ part_array
       (reconciled (fst (get_parts (upload_session reply_lost)))
          [mkPart 0 2 1; mkPart 2 2 2] reply_lost)
     = longest_prefix_upto 2 [mkPart 0 2 1; mkPart 2 2 2]
  /\ inflight_part
       (reconciled (fst (get_parts (upload_session reply_lost)))
          [mkPart 0 2 1; mkPart 2 2 2] reply_lost)
     = None
  /\ part_definitions
       (reconciled (fst (get_parts (upload_session reply_lost)))
          [mkPart 0 2 1; mkPart 2 2 2] reply_lost) !! 2
     = Some (mkPart 2 2 2).
Proof.
  pose proof (C3_resume_rebuilds_committed_prefix 20 reply_lost
                (mkInflightPart 2 [x03; x04] 5)
                (fst (get_parts (upload_session reply_lost)))
                [mkPart 0 2 1; mkPart 2 2 2]) as W.
  assert (H1 : is_aborted reply_lost = false) by (vm_compute; reflexivity).
  assert (H2 : inflight_part reply_lost = Some (mkInflightPart 2 [x03; x04] 5))
    by (vm_compute; reflexivity).
  assert (H3 : get_parts (upload_session reply_lost)
               = (fst (get_parts (upload_session reply_lost)),
                  Returns [mkPart 0 2 1; mkPart 2 2 2]))
    by (vm_compute; reflexivity).
  assert (Hasc : ascending [mkPart 0 2 1; mkPart 2 2 2]).
  { unfold ascending. repeat constructor. }
  specialize (W H1 H2 H3).
  destruct W as (_ & W2 & W3 & W4 & _ & _ & _ & W8).
  split; [exact W2|]. split; [exact (W3 Hasc)|]. split.
  - apply W4. exists (mkPart 2 2 2). split; [|reflexivity].
    apply list_elem_of_further, list_elem_of_here.
  - apply (W8 Hasc (mkPart 2 2 2)).
    apply list_elem_of_further, list_elem_of_here.
Defined.



(** ** [abort] *)

Section Abort.
Context {R : Type} `{Remote R}.
Implicit Type u : ChunkedUploader R.

Lemma abort_unfold u :
  abort u
  = (mkUploader (fst (session_abort (upload_session u))) None (file_size u) []
       (sha1 u) (part_definitions u) None true,
     of_reply (snd (session_abort (upload_session u)))).
Proof.
  unfold abort, bind, modify, call. cbn.
  destruct (session_abort (upload_session u)) as [s [b|e]]; reflexivity.
Qed.

Lemma session_abort_journal (s : UploadSession R) :
  journal (fst (session_abort s)) = journal s ++ [CallAbort].
Proof.
  unfold session_abort. destruct (remote_abort (remote s)). reflexivity.
Qed.

Lemma run_op_aborted fuel op u :
  is_aborted u = true ->
  is_aborted (fst (run_op fuel op u)) = true
  /\ match op with
     | OpAbort => exists o, snd (run_op fuel op u) = AnsBool o
     | _ => snd (run_op fuel op u) = AnsFile aborted_error
     end.
Proof.
  intros Hu. destruct op; unfold run_op.
  - rewrite start_aborted by exact Hu. split; [exact Hu | reflexivity].
  - rewrite resume_aborted by exact Hu. split; [exact Hu | reflexivity].
  - rewrite abort_unfold. split; [reflexivity | eexists; reflexivity].
Qed.

Lemma run_ops_aborted fuel ops u :
  is_aborted u = true ->
  is_aborted (fst (run_ops fuel ops u)) = true
  /\ Forall2 (fun op a => match op with
                          | OpAbort => exists o, a = AnsBool o
                          | _ => a = AnsFile aborted_error
                          end)
       ops (snd (run_ops fuel ops u)).
Proof.
  revert u. induction ops as [|op ops IH]; intros u Hu.
  - split; [exact Hu | constructor].
  - cbn [run_ops].
    destruct (run_op_aborted fuel op u Hu) as [Hab Hans].
    destruct (run_op fuel op u) as [u1 a]. cbn [fst snd] in Hab, Hans.
    destruct (IH u1 Hab) as [Hab2 Hrest].
    destruct (run_ops fuel ops u1) as [u2 answers]. cbn [fst snd] in *.
    split; [exact Hab2|]. constructor; [|exact Hrest].
    destruct op; exact Hans.
Qed.

(** C5. Whatever [abort] answered, every [start] and every [resume] in any
    later sequence of calls on the engine raises the aborted-state error
    and the engine stays aborted; a second [abort] raises nothing of its
    own: it sends the remote abort again and answers what the session
    answered. *)
Theorem C5_abort_is_terminal fuel u ops :
  is_aborted (fst (abort u)) = true
  /\ is_aborted (fst (run_ops fuel ops (fst (abort u)))) = true
  /\ Forall2 (fun op a => match op with
                          | OpAbort => exists o, a = AnsBool o
                          | _ => a = AnsFile aborted_error
                          end)
       ops (snd (run_ops fuel ops (fst (abort u))))
  /\ snd (abort (fst (abort u)))
     = of_reply (snd (session_abort (upload_session (fst (abort u)))))
  /\ journal (upload_session (fst (abort (fst (abort u)))))
     = journal (upload_session u) ++ [CallAbort; CallAbort].
Proof.
  assert (Hab : is_aborted (fst (abort u)) = true)
    by (rewrite abort_unfold; reflexivity).
  split; [exact Hab|].
  destruct (run_ops_aborted fuel ops _ Hab) as [H1 H2].
  split; [exact H1|]. split; [exact H2|]. split.
  - rewrite (abort_unfold (fst (abort u))). reflexivity.
  - rewrite (abort_unfold (fst (abort u))). cbn [fst upload_session].
    rewrite session_abort_journal. rewrite abort_unfold. cbn [fst upload_session].
    rewrite session_abort_journal. rewrite <- app_assoc. reflexivity.
Qed.

(** C9. [abort] has dropped the stream, emptied the committed list, cleared
    the in-flight part and set the aborted flag whatever the remote abort
    does: its answer, a boolean or an exception, is passed on unchanged,
    and in both cases the engine is left cleared and aborted, with the
    definitions cache and the digest accumulator as they were. *)
Theorem C9_abort_clears_before_remote_call u :
  content_stream (fst (abort u)) = None
  /\ part_array (fst (abort u)) = []
  /\ inflight_part (fst (abort u)) = None
  /\ is_aborted (fst (abort u)) = true
  /\ part_definitions (fst (abort u)) = part_definitions u
  /\ sha1 (fst (abort u)) = sha1 u
  /\ upload_session (fst (abort u)) = fst (session_abort (upload_session u))
  /\ snd (abort u) = of_reply (snd (session_abort (upload_session u)))
  /\ (forall e, snd (session_abort (upload_session u)) = Raises e ->
        snd (abort u) = Threw e /\ is_aborted (fst (abort u)) = true
        /\ content_stream (fst (abort u)) = None).
Proof.
  rewrite abort_unfold. cbn [fst snd content_stream part_array inflight_part
    is_aborted part_definitions sha1 upload_session].
  do 8 (split; [reflexivity|]).
  intros e He. rewrite He. repeat split.
Qed.

(** C7. With no part in flight, no part committed and an empty listing,
    [resume] is [start] run on the session as the listing request left
    it: the same final state of engine and session, hence the same
    [upload_part_bytes] requests and the same [commit] request, and the
    same answer. *)
Theorem C7_resume_with_nothing_uploaded_is_start fuel u s :
  inflight_part u = None ->
  part_array u = [] ->
  get_parts (upload_session u) = (s, Returns []) ->
  snd (resume fuel u) = snd (start fuel (set_upload_session s u))
  /\ (is_aborted u = false ->
      resume fuel u = start fuel (set_upload_session s u)).
Proof.
  intros Hin Hparts Hget.
  assert (Hrec : reconciled s [] u = set_upload_session s u).
  { unfold reconciled. cbn. destruct u; cbn in *. subst. reflexivity. }
  destruct (is_aborted u) eqn:Hab.
  - split; [|discriminate].
    rewrite resume_aborted by exact Hab.
    rewrite start_aborted by (destruct u; exact Hab). reflexivity.
  - assert (E : resume fuel u = start fuel (set_upload_session s u)).
    { rewrite (resume_unfold fuel u s []) by assumption.
      rewrite start_unfold by (destruct u; exact Hab).
      rewrite Hrec. reflexivity. }
    split; [rewrite E; reflexivity | intros _; exact E].
Qed.
End Abort.

Lemma C7_witness :
  snd (resume 20 (fresh []))
  = snd (start 20 (set_upload_session (fst (get_parts (upload_session (fresh []))))
                     (fresh []))).
Proof.
  apply (C7_resume_with_nothing_uploaded_is_start 20 (fresh [])
           (fst (get_parts (upload_session (fresh []))))); reflexivity.
Defined.

(** ** Chunk assembly *)

Lemma stream_read_schedule st n :
  schedule (fst (stream_read st n)) = schedule st
  /\ reads (fst (stream_read st n)) = S (reads st).
Proof. unfold stream_read. destruct (schedule st (reads st)); split; reflexivity. Qed.

Section ReadChunk.

(** A read that is not ready changes neither the count nor the chunk: the
    loop goes round again. *)
Lemma read_chunk_not_ready fuel size st copied_length chunk :
  copied_length < size ->
  schedule st (reads st) = NotReady ->
  read_chunk (S fuel) size st copied_length chunk
  = read_chunk fuel size
      (mkStream (pending st) (schedule st) (S (reads st))) copied_length chunk.
Proof.
  intros Hlt Hev. cbn [read_chunk].
  replace (copied_length <? size) with true by (symmetry; apply Z.ltb_lt; exact Hlt).
  unfold stream_read. rewrite Hev. reflexivity.
Qed.

(** What a finished assembly returns: the chunk grew by the next
    [size - copied_length] bytes of the stream, or by all that was left. *)
Lemma read_chunk_done fuel size st copied_length chunk st' chunk' :
  read_chunk fuel size st copied_length chunk = (st', Done chunk') ->
  chunk' = chunk ++ take (Z.to_nat (size - copied_length)) (pending st)
  /\ pending st' = drop (Z.to_nat (size - copied_length)) (pending st)
  /\ schedule st' = schedule st.
Proof.
  revert st copied_length chunk.
  induction fuel as [|fuel IH]; intros st copied_length chunk.
  - cbn [read_chunk]. destruct (Z.ltb_spec copied_length size) as [L|L]; [discriminate|].
    intros [= <- <-]. replace (Z.to_nat (size - copied_length)) with O by lia.
    rewrite take_0, drop_0, app_nil_r. auto.
  - cbn [read_chunk]. destruct (Z.ltb_spec copied_length size) as [L|L].
    2:{ intros [= <- <-]. replace (Z.to_nat (size - copied_length)) with O by lia.
        rewrite take_0, drop_0, app_nil_r. auto. }
    unfold stream_read. destruct (schedule st (reads st)) as [|extra|].
    + intros Hrun. apply IH in Hrun. exact Hrun.
    + set (n := Z.to_nat (size - copied_length)).
      set (k := Nat.min n (S extra)).
      assert (Hk : (1 <= k <= n)%nat) by (subst k n; lia).
      destruct (take k (pending st)) as [|b bs] eqn:Htake.
      * intros [= <- <-]. cbn [pending schedule].
        apply take_nil_inv in Htake. destruct Htake as [Hk0|Hnil]; [lia|].
        rewrite Hnil, take_nil, !drop_nil, app_nil_r. auto.
      * rewrite <- Htake. intros Hrun. apply IH in Hrun.
        cbn [pending schedule] in Hrun. destruct Hrun as (Hc & Hp & Hs).
        rewrite length_take in Hc, Hp.
        destruct (Nat.le_gt_cases k (length (pending st))) as [Hlen|Hlen].
        -- replace (Z.to_nat (size - (copied_length + Z.of_nat (k `min` length (pending st)))))
             with (n - k)%nat in Hc, Hp by (subst n; lia).
           rewrite <- app_assoc, take_take_drop in Hc.
           rewrite drop_drop in Hp.
           replace (k + (n - k))%nat with n in Hc, Hp by lia. auto.
        -- rewrite (drop_ge _ k) in Hc, Hp by lia.
           rewrite take_nil, app_nil_r in Hc. rewrite drop_nil in Hp.
           rewrite (take_ge _ k) in Hc by lia.
           rewrite (take_ge _ n), (drop_ge _ n) by lia. auto.
    + discriminate.
Qed.

(** More fuel does not change a run that ended. *)
Lemma read_chunk_mono fuel fuel' size st copied_length chunk st' o :
  (fuel <= fuel')%nat ->
  read_chunk fuel size st copied_length chunk = (st', o) ->
  o <> Diverged ->
  read_chunk fuel' size st copied_length chunk = (st', o).
Proof.
  revert fuel' st copied_length chunk.
  induction fuel as [|fuel IH]; intros fuel' st copied_length chunk Hle Hrun Ho.
  - cbn [read_chunk] in Hrun.
    destruct fuel'; cbn [read_chunk];
      destruct (copied_length <? size); try exact Hrun;
      injection Hrun as <- <-; congruence.
  - destruct fuel' as [|fuel']; [lia|].
    cbn [read_chunk] in *. destruct (copied_length <? size); [|exact Hrun].
    destruct (stream_read st (size - copied_length)) as [st1 [[bs|]|e]].
    + destruct bs; [exact Hrun|]. apply IH; [lia|assumption..].
    + apply IH; [lia|assumption..].
    + exact Hrun.
Qed.

(** With a responsive stream the assembly ends. *)
Lemma read_chunk_terminates size st copied_length chunk :
  responsive (schedule st) ->
  exists fuel, snd (read_chunk fuel size st copied_length chunk) <> Diverged.
Proof.
  intros Hresp.
  remember (Z.to_nat (size - copied_length)) as m eqn:Hm.
  revert st copied_length chunk Hresp Hm.
  induction m as [m IHm] using lt_wf_ind. intros st copied_length chunk Hresp Hm.
  destruct (Z.ltb_spec copied_length size) as [L|L].
  2:{ exists O. cbn [read_chunk].
      replace (copied_length <? size) with false by (symmetry; apply Z.ltb_ge; lia).
      cbn. discriminate. }
  destruct (Hresp (reads st)) as (j & Hj & Hev).
  remember (j - reads st)%nat as d eqn:Hd.
  revert st Hresp Hj Hev Hd Hm.
  induction d as [|d IHd]; intros st Hresp Hj Hev Hd Hm.
  - assert (j = reads st) by lia. subst j.
    destruct (schedule st (reads st)) as [|extra|] eqn:Hsch; [congruence| |].
    + set (k := Nat.min (Z.to_nat (size - copied_length)) (S extra)).
      destruct (take k (pending st)) as [|b bs] eqn:Htake.
      * exists 1%nat. cbn [read_chunk].
        replace (copied_length <? size) with true by (symmetry; apply Z.ltb_lt; lia).
        unfold stream_read. rewrite Hsch. fold k. rewrite Htake. cbn. discriminate.
      * destruct (IHm (Z.to_nat (size - (copied_length + Z.of_nat (length (b :: bs))))))
          with (st := mkStream (drop k (pending st)) (schedule st) (S (reads st)))
               (copied_length := copied_length + Z.of_nat (length (b :: bs)))
               (chunk := chunk ++ b :: bs) as [fuel Hfuel].
        -- cbn [length]. lia.
        -- exact Hresp.
        -- reflexivity.
        -- exists (S fuel). cbn [read_chunk].
           replace (copied_length <? size) with true by (symmetry; apply Z.ltb_lt; lia).
           unfold stream_read. rewrite Hsch. fold k. rewrite Htake. exact Hfuel.
    + exists 1%nat. cbn [read_chunk].
      replace (copied_length <? size) with true by (symmetry; apply Z.ltb_lt; lia).
      unfold stream_read. rewrite Hsch. cbn. discriminate.
  - destruct (schedule st (reads st)) as [|extra|] eqn:Hsch.
    + destruct (IHd (mkStream (pending st) (schedule st) (S (reads st))))
        as [fuel Hfuel]; cbn [schedule reads pending]; try assumption; try lia.
      exists (S fuel). rewrite read_chunk_not_ready by assumption. exact Hfuel.
    + set (k := Nat.min (Z.to_nat (size - copied_length)) (S extra)).
      destruct (take k (pending st)) as [|b bs] eqn:Htake.
      * exists 1%nat. cbn [read_chunk].
        replace (copied_length <? size) with true by (symmetry; apply Z.ltb_lt; lia).
        unfold stream_read. rewrite Hsch. fold k. rewrite Htake. cbn. discriminate.
      * destruct (IHm (Z.to_nat (size - (copied_length + Z.of_nat (length (b :: bs))))))
          with (st := mkStream (drop k (pending st)) (schedule st) (S (reads st)))
               (copied_length := copied_length + Z.of_nat (length (b :: bs)))
               (chunk := chunk ++ b :: bs) as [fuel Hfuel].
        -- cbn [length]. lia.
        -- exact Hresp.
        -- reflexivity.
        -- exists (S fuel). cbn [read_chunk].
           replace (copied_length <? size) with true by (symmetry; apply Z.ltb_lt; lia).
           unfold stream_read. rewrite Hsch. fold k. rewrite Htake. exact Hfuel.
    + exists 1%nat. cbn [read_chunk].
      replace (copied_length <? size) with true by (symmetry; apply Z.ltb_lt; lia).
      unfold stream_read. rewrite Hsch. cbn. discriminate.
Qed.
End ReadChunk.

(** ** One pass through the upload loop *)

Section Body.
Context {R : Type} `{Remote R}.
Implicit Type u : ChunkedUploader R.

Lemma upload_part_bytes_session (s s' : UploadSession R) bs o t a :
  upload_part_bytes s bs o t = (s', a) ->
  total_parts s' = total_parts s /\ part_size s' = part_size s
  /\ journal s' = journal s ++ [CallUploadPartBytes bs o t].
Proof.
  unfold upload_part_bytes. destruct (remote_upload_part_bytes _ _ _ _).
  intros [= <- <-]. auto.
Qed.

Lemma get_next_part_done fuel u u' p :
  _get_next_part fuel u = (u', Done p) ->
  exists st st',
    content_stream u = Some st
    /\ u' = set_content_stream (Some st') u
    /\ schedule st' = schedule st
    /\ pending st' = drop (Z.to_nat (part_size (upload_session u))) (pending st)
    /\ p = mkInflightPart
             (Z.of_nat (length (part_array u)) * part_size (upload_session u))
             (take (Z.to_nat (part_size (upload_session u))) (pending st))
             (file_size u).
Proof.
  unfold _get_next_part. destruct (content_stream u) as [st|]; [|discriminate].
  destruct (read_chunk _ _ _ _ _) as [st' [c|e|]] eqn:Hrun; try discriminate.
  intros [= <- <-]. apply read_chunk_done in Hrun.
  rewrite Z.sub_0_r in Hrun. destruct Hrun as (-> & Hp & Hs).
  exists st, st'. auto.
Qed.

(** What a pass that ended normally did: it took the part in flight, or
    read the next chunk; hashed it; found its record in the cache, or
    uploaded it; appended that one record. *)
Lemma upload_body_done fuel u u' :
  upload_body fuel u = (u', Done tt) ->
  exists next rec s' cs',
    u' = mkUploader s' cs' (file_size u) (part_array u ++ [rec])
           (sha1 u ++ [chunk next])
           (<[offset next := rec]> (part_definitions u)) None (is_aborted u)
    /\ ((inflight_part u = Some next /\ cs' = content_stream u)
        \/ (inflight_part u = None /\
            exists st st',
              content_stream u = Some st /\ cs' = Some st'
              /\ schedule st' = schedule st
              /\ pending st'
                 = drop (Z.to_nat (part_size (upload_session u))) (pending st)
              /\ next = mkInflightPart
                   (Z.of_nat (length (part_array u)) * part_size (upload_session u))
                   (take (Z.to_nat (part_size (upload_session u))) (pending st))
                   (file_size u)))
    /\ ((part_definitions u !! offset next = Some rec /\ s' = upload_session u)
        \/ (part_definitions u !! offset next = None /\
            upload_part_bytes (upload_session u) (chunk next) (offset next)
              (total_size next) = (s', Returns rec))).
Proof.
  unfold upload_body, bind, modify, ret, InflightPart_upload, call.
  destruct (inflight_part u) as [ip|] eqn:Hin.
  - cbn. destruct (part_definitions u !! offset ip) as [rec|] eqn:Hdef.
    + intros [= <-]. exists ip, rec, (upload_session u), (content_stream u).
      split; [unfold sha1_update; reflexivity|]. split; [left; auto|left; auto].
    + destruct (upload_part_bytes _ _ _ _) as [s' [rec|e]] eqn:Hup; [|discriminate].
      intros [= <-]. exists ip, rec, s', (content_stream u).
      split; [unfold sha1_update; reflexivity|]. split; [left; auto|right; auto].
  - destruct (_get_next_part fuel u) as [u1 [p| |]] eqn:Hnext; try discriminate.
    apply get_next_part_done in Hnext.
    destruct Hnext as (st & st' & Hcs & -> & Hs & Hp & Hnext).
    cbn. destruct (part_definitions u !! offset p) as [rec|] eqn:Hdef.
    + intros [= <-]. exists p, rec, (upload_session u), (Some st').
      split; [unfold sha1_update; reflexivity|].
      split; [right; split; [reflexivity|]; exists st, st'; auto|left; auto].
    + destruct (upload_part_bytes _ _ _ _) as [s' [rec|e]] eqn:Hup; [|discriminate].
      intros [= <-]. exists p, rec, s', (Some st').
      split; [unfold sha1_update; reflexivity|].
      split; [right; split; [reflexivity|]; exists st, st'; auto|right; auto].
Qed.
End Body.

Section BodyAny.
Context {R : Type} `{Remote R}.
Implicit Type u : ChunkedUploader R.

Lemma get_next_part_frame fuel u u1 (o : outcome InflightPart) :
  _get_next_part fuel u = (u1, o) -> exists cs, u1 = set_content_stream cs u.
Proof.
  unfold _get_next_part. destruct (content_stream u) as [st|] eqn:Hcs.
  - destruct (read_chunk _ _ _ _ _) as [st' [c|e|]]; intros [= <- <-]; eauto.
  - intros [= <- <-]. exists None. destruct u; cbn in *; subst; reflexivity.
Qed.

(** Whatever the outcome of a pass, the session keeps its attributes, the
    cache loses no key, and the only request the pass can have sent is one
    [upload_part_bytes] at an offset that was not in the cache. *)
Lemma upload_body_any fuel u u' (o : outcome unit) :
  upload_body fuel u = (u', o) ->
  total_parts (upload_session u') = total_parts (upload_session u)
  /\ part_size (upload_session u') = part_size (upload_session u)
  /\ is_aborted u' = is_aborted u
  /\ (forall k, is_Some (part_definitions u !! k) ->
                is_Some (part_definitions u' !! k))
  /\ (journal (upload_session u') = journal (upload_session u)
      \/ exists c k t,
           journal (upload_session u')
           = journal (upload_session u) ++ [CallUploadPartBytes c k t]
           /\ part_definitions u !! k = None).
Proof.
  assert (Hstep : forall u1 next,
    (exists cs, u1 = set_content_stream cs u) ->
    (modify (set_inflight_part (Some next)) ;;;
     modify (fun u => set_sha1 (sha1_update (sha1 u) (chunk next)) u) ;;;
     uploaded_part <- (fun u => match part_definitions u !! offset next with
                                | Some p => ret p u
                                | None => InflightPart_upload next u
                                end) ;;
     modify (set_inflight_part None) ;;;
     modify (fun u => set_part_array (part_array u ++ [uploaded_part]) u) ;;;
     modify (fun u => set_part_definitions
                        (<[offset next := uploaded_part]> (part_definitions u)) u))%upl
      u1 = (u', o) ->
    total_parts (upload_session u') = total_parts (upload_session u)
    /\ part_size (upload_session u') = part_size (upload_session u)
    /\ is_aborted u' = is_aborted u
    /\ (forall k, is_Some (part_definitions u !! k) ->
                  is_Some (part_definitions u' !! k))
    /\ (journal (upload_session u') = journal (upload_session u)
        \/ exists c k t,
             journal (upload_session u')
             = journal (upload_session u) ++ [CallUploadPartBytes c k t]
             /\ part_definitions u !! k = None)).
  { intros u1 next [cs ->].
    unfold bind, modify, ret, InflightPart_upload, call. cbn.
    destruct (part_definitions u !! offset next) as [rec|] eqn:Hdef.
    - intros [= <- <-]. cbn. repeat split; auto.
      intros k Hk. destruct (decide (offset next = k)) as [->|Hne].
      + rewrite lookup_insert_eq. eauto.
      + rewrite lookup_insert_ne by exact Hne. exact Hk.
    - destruct (upload_part_bytes _ _ _ _) as [s' [rec|e]] eqn:Hup;
        apply upload_part_bytes_session in Hup; destruct Hup as (Ht & Hp & Hj);
        intros [= <- <-]; cbn; repeat split; auto.
      + intros k Hk. destruct (decide (offset next = k)) as [->|Hne].
        * rewrite lookup_insert_eq. eauto.
        * rewrite lookup_insert_ne by exact Hne. exact Hk.
      + right. eauto.
      + right. eauto. }
  unfold upload_body. unfold bind at 1.
  destruct (inflight_part u) as [ip|] eqn:Hin.
  - cbn [ret]. apply Hstep. exists (content_stream u). destruct u; reflexivity.
  - destruct (_get_next_part fuel u) as [u1 [p|e|]] eqn:Hnext;
      pose proof (get_next_part_frame _ _ _ _ Hnext) as Hframe.
    + apply Hstep. exact Hframe.
    + destruct Hframe as [cs ->]. intros [= <- <-]. cbn. repeat split; auto.
    + destruct Hframe as [cs ->]. intros [= <- <-]. cbn. repeat split; auto.
Qed.



End BodyAny.

(** ** The upload loop *)

Section Loop.
Context {R : Type} `{Remote R}.
Implicit Type u : ChunkedUploader R.

Lemma upload_loop_exit fuel n u :
  total_parts (upload_session u) <= Z.of_nat (length (part_array u)) ->
  upload_loop fuel n u = (u, Done tt).
Proof.
  intros Hge. destruct n; cbn [upload_loop];
    replace (_ <? _) with false by (symmetry; apply Z.ltb_ge; exact Hge);
    reflexivity.
Qed.

Lemma upload_loop_pass fuel n u :
  Z.of_nat (length (part_array u)) < total_parts (upload_session u) ->
  upload_loop fuel (S n) u
  = bind (upload_body fuel) (fun _ => upload_loop fuel n) u.
Proof.
  intros Hlt. cbn [upload_loop].
  replace (_ <? _) with true by (symmetry; apply Z.ltb_lt; exact Hlt).
  reflexivity.
Qed.

Lemma upload_loop_stall fuel u :
  Z.of_nat (length (part_array u)) < total_parts (upload_session u) ->
  upload_loop fuel O u = (u, Diverged).
Proof.
  intros Hlt. cbn [upload_loop].
  replace (_ <? _) with true by (symmetry; apply Z.ltb_lt; exact Hlt).
  reflexivity.
Qed.

(** A property that every pass keeps, whatever its outcome, holds when the
    loop ends, whatever its outcome. *)
Lemma upload_loop_inv (I : ChunkedUploader R -> Prop) fuel :
  (forall u u' o, I u -> upload_body fuel u = (u', o) -> I u') ->
  forall n u u' o, I u -> upload_loop fuel n u = (u', o) -> I u'.
Proof.
  intros Hbody. induction n as [|n IH]; intros u u' o Hu.
  - cbn [upload_loop]. destruct (_ <? _); intros [= <- <-]; exact Hu.
  - cbn [upload_loop]. destruct (_ <? _); [|intros [= <- <-]; exact Hu].
    unfold bind. destruct (upload_body fuel u) as [u1 [[]|e|]] eqn:Hb.
    + apply IH. eapply Hbody; eassumption.
    + intros [= <- <-]. eapply Hbody; eassumption.
    + intros [= <- <-]. eapply Hbody; eassumption.
Qed.

(** The same for a property that the passes that end normally keep, on a
    loop that ends normally. *)
Lemma upload_loop_inv_done (I : ChunkedUploader R -> Prop) fuel :
  (forall u u', I u ->
     Z.of_nat (length (part_array u)) < total_parts (upload_session u) ->
     upload_body fuel u = (u', Done tt) -> I u') ->
  forall n u u', I u -> upload_loop fuel n u = (u', Done tt) ->
    I u' /\ total_parts (upload_session u') <= Z.of_nat (length (part_array u')).
Proof.
  intros Hbody. induction n as [|n IH]; intros u u' Hu.
  - cbn [upload_loop]. destruct (Z.ltb_spec (Z.of_nat (length (part_array u)))
                                   (total_parts (upload_session u))); [discriminate|].
    intros [= <-]. auto.
  - cbn [upload_loop]. destruct (Z.ltb_spec (Z.of_nat (length (part_array u)))
                                   (total_parts (upload_session u))) as [L|L].
    2:{ intros [= <-]. auto. }
    unfold bind. destruct (upload_body fuel u) as [u1 [[]|e|]] eqn:Hb; try discriminate.
    apply IH. eapply Hbody; eassumption.
Qed.


(** A pass that ended normally leaves one pass less to make, and the
    stream, if any, on its schedule. *)
Lemma upload_body_done_progress fuel u u' :
  upload_body fuel u = (u', Done tt) ->
  length (part_array u') = S (length (part_array u))
  /\ length (sha1 u') = S (length (sha1 u))
  /\ total_parts (upload_session u') = total_parts (upload_session u)
  /\ part_size (upload_session u') = part_size (upload_session u)
  /\ inflight_part u' = None
  /\ (forall st', content_stream u' = Some st' ->
        exists st, content_stream u = Some st /\ schedule st' = schedule st).
Proof.
  intros Hb. pose proof (upload_body_any _ _ _ _ Hb) as (Ht & Hp & _).
  apply upload_body_done in Hb.
  destruct Hb as (next & rec & s' & cs' & -> & Hstream & _).
  cbn in *. rewrite !length_app. cbn.
  repeat split; try lia; try assumption.
  intros st' ->.
  destruct Hstream as [[_ Hs]|[_ (st & st1 & Hcs & [= ->] & Hsch & _)]]; eauto.
Qed.


(** A loop that ended normally made exactly [passes_left] passes: it needed
    that many, and each appended one record and hashed one chunk. *)
Lemma upload_loop_count fuel n u u' :
  upload_loop fuel n u = (u', Done tt) ->
  (passes_left u <= n)%nat
  /\ length (part_array u') = (length (part_array u) + passes_left u)%nat
  /\ length (sha1 u') = (length (sha1 u) + passes_left u)%nat
  /\ total_parts (upload_session u') = total_parts (upload_session u)
  /\ part_size (upload_session u') = part_size (upload_session u).
Proof.
  revert u. induction n as [|n IH]; intros u Hrun; unfold passes_left in *.
  - destruct (Z.ltb_spec (Z.of_nat (length (part_array u)))
                (total_parts (upload_session u))) as [L|L].
    + rewrite upload_loop_stall in Hrun by exact L. discriminate.
    + rewrite upload_loop_exit in Hrun by exact L. injection Hrun as <-.
      repeat split; lia.
  - destruct (Z.ltb_spec (Z.of_nat (length (part_array u)))
                (total_parts (upload_session u))) as [L|L].
    + rewrite upload_loop_pass in Hrun by exact L. unfold bind in Hrun.
      destruct (upload_body fuel u) as [u1 [[]|e|]] eqn:Hb; try discriminate.
      pose proof (upload_body_done_progress _ _ _ Hb) as (Hlen & Hsha & Ht & Hp & _).
      destruct (IH u1 Hrun) as (Hn & Hl' & Hs' & Ht' & Hp').
      rewrite Hlen, Ht in *. repeat split; lia.
    + rewrite upload_loop_exit in Hrun by exact L. injection Hrun as <-.
      repeat split; lia.
Qed.
End Loop.

Section Termination.
Context {R : Type} `{Remote R}.
Implicit Type u : ChunkedUploader R.


Lemma read_chunk_faultless fuel size st copied_length chunk st' e :
  faultless (schedule st) ->
  read_chunk fuel size st copied_length chunk <> (st', Threw e).
Proof.
  revert st copied_length chunk.
  induction fuel as [|fuel IH]; intros st copied_length chunk Hf; cbn [read_chunk].
  - destruct (_ <? _); discriminate.
  - destruct (_ <? _); [|discriminate].
    unfold stream_read. destruct (schedule st (reads st)) as [|extra|] eqn:Hev.
    + apply IH. exact Hf.
    + destruct (take _ (pending st)); [discriminate|]. apply IH. exact Hf.
    + exfalso. exact (Hf _ Hev).
Qed.

(** C8. Where the stream is in place, a chunk that [_get_next_part]
    returns is the next [part_size] bytes of the stream, or all that was
    left of it when fewer were left: so the assembly stops only at
    [part_size] bytes or at the end of the stream, however many reads were
    not ready in between.  A read that is not ready leaves the count and
    the chunk as they are and the loop reads again; and when every read is
    in the end followed by a ready one and none raises, the assembly does
    return. *)
Theorem C8_chunk_assembly_waits_for_bytes u st :
  content_stream u = Some st ->
  (forall fuel u' p, _get_next_part fuel u = (u', Done p) ->
     chunk p = take (Z.to_nat (part_size (upload_session u))) (pending st)
     /\ (length (chunk p) = Z.to_nat (part_size (upload_session u))
         \/ (chunk p = pending st
             /\ exists st', content_stream u' = Some st' /\ pending st' = [])))
  /\ (forall fuel size st0 copied_length chunk0,
        copied_length < size ->
        schedule st0 (reads st0) = NotReady ->
        read_chunk (S fuel) size st0 copied_length chunk0
        = read_chunk fuel size
            (mkStream (pending st0) (schedule st0) (S (reads st0)))
            copied_length chunk0)
  /\ (responsive (schedule st) -> faultless (schedule st) ->
      exists fuel0, forall fuel, (fuel0 <= fuel)%nat ->
        exists u' p, _get_next_part fuel u = (u', Done p)).
Proof.
  intros Hcs. split; [|split].
  - intros fuel u' p Hrun. apply get_next_part_done in Hrun.
    destruct Hrun as (st0 & st' & Hcs0 & -> & _ & Hp & ->).
    rewrite Hcs in Hcs0. injection Hcs0 as <-. cbn [chunk].
    split; [reflexivity|].
    set (n := Z.to_nat (part_size (upload_session u))) in *.
    destruct (Nat.le_gt_cases n (length (pending st))) as [L|L].
    + left. rewrite length_take. lia.
    + right. split; [apply take_ge; lia|].
      exists st'. split; [reflexivity|]. rewrite Hp. apply drop_ge. lia.
  - intros. apply read_chunk_not_ready; assumption.
  - intros Hresp Hfault.
    destruct (read_chunk_terminates (part_size (upload_session u)) st 0 [] Hresp)
      as [fuel0 Hfuel0].
    exists fuel0. intros fuel Hle.
    destruct (read_chunk fuel0 (part_size (upload_session u)) st 0 [])
      as [st' o] eqn:Hrun. cbn [snd] in Hfuel0.
    pose proof (read_chunk_mono fuel0 fuel _ _ _ _ _ _ Hle Hrun Hfuel0) as Hrun'.
    unfold _get_next_part. rewrite Hcs, Hrun'.
    destruct o as [c|e|]; [eauto| |congruence].
    exfalso. exact (read_chunk_faultless _ _ _ _ _ _ _ Hfault Hrun).
Qed.
End Termination.

(** ** A whole upload from a new engine *)

Section Fresh.
Context {R : Type} `{Remote R}.
Implicit Type u : ChunkedUploader R.

Lemma commit_session (s s' : UploadSession R) d parts a :
  commit s d parts = (s', a) ->
  journal s' = journal s ++ [CallCommit d parts].
Proof.
  unfold commit. destruct (remote_commit _ _ _). intros [= <- <-]. reflexivity.
Qed.

Lemma upload_and_commit_done fuel u u' f :
  upload_and_commit fuel u = (u', Done f) ->
  exists u1 s',
    _upload fuel u = (u1, Done tt)
    /\ commit (upload_session u1) (sha1_digest (sha1 u1)) (part_array u1)
       = (s', Returns f)
    /\ u' = set_upload_session s' u1.
Proof.
  unfold upload_and_commit, bind, gets, call.
  destruct (_upload fuel u) as [u1 [[]|e|]]; try discriminate.
  destruct (commit _ _ _) as [s' [f'|e]] eqn:Hc; try discriminate.
  intros [= <- <-]. eauto.
Qed.

Lemma in_step_pass c ps T fs fuel u u' :
  0 < ps -> honest R ->
  in_step c ps T fs u ->
  upload_body fuel u = (u', Done tt) ->
  in_step c ps T fs u'.
Proof.
  intros Hps Hhonest (Hin & Hp & Ht & Hfs & (st & Hcs & Hpend) & Hkeys & Hrecs) Hb.
  pose proof (upload_body_any _ _ _ _ Hb) as (Ht' & Hp' & _).
  apply upload_body_done in Hb.
  destruct Hb as (next & rec & s' & cs' & -> & Hstream & Hcache).
  destruct Hstream as [[Hsome _]|[_ (st0 & st' & Hcs0 & -> & _ & Hpend' & ->)]];
    [congruence|].
  rewrite Hcs in Hcs0. injection Hcs0 as <-.
  cbn [offset chunk total_size] in Hcache.
  cbn [upload_session] in Ht', Hp'.
  destruct Hcache as [[Hhit _]|[_ Hup]].
  { destruct (Hkeys _ (ex_intro _ _ Hhit)) as (j & Hj & E). rewrite Hp in E. nia. }
  unfold upload_part_bytes in Hup.
  destruct (remote_upload_part_bytes _ _ _ _) as [r' a] eqn:Hremote.
  injection Hup as <- ->.
  destruct (Hhonest _ _ _ _ _ _ Hremote) as (Hoff & Hsize).
  unfold in_step.
  cbn [inflight_part upload_session part_size total_parts file_size content_stream
       part_array part_definitions request offset].
  rewrite length_app. cbn [length].
  split; [reflexivity|]. split; [exact Hp|]. split; [exact Ht|]. split; [exact Hfs|].
  split; [|split].
  - exists st'. split; [reflexivity|]. rewrite Hpend', Hpend, Hp, drop_drop.
    f_equal. lia.
  - intros k Hk. destruct (decide (Z.of_nat (length (part_array u)) * part_size (upload_session u) = k))
      as [<-|Hne].
    + exists (length (part_array u)). split; [lia|]. rewrite Hp. reflexivity.
    + rewrite lookup_insert_ne in Hk by exact Hne.
      destruct (Hkeys k Hk) as (j & Hj & E). exists j. split; [lia|exact E].
  - intros j p Hj. apply lookup_app_Some in Hj.
    destruct Hj as [Hj|[Hlen Hj]]; [apply Hrecs; exact Hj|].
    destruct (j - length (part_array u))%nat as [|d] eqn:Hd; [|discriminate].
    injection Hj as <-. assert (j = length (part_array u)) by lia. subst j.
    rewrite Hoff, Hsize, Hp, Hpend. auto.
Qed.

Lemma in_step_init c ps T fs (session : UploadSession R) sch k :
  part_size session = ps -> total_parts session = T ->
  in_step c ps T fs (init session (mkStream c sch k) fs).
Proof.
  intros Hp Ht. unfold in_step, init. cbn.
  repeat split; auto.
  - eexists. split; [reflexivity|]. reflexivity.
  - intros k0 [x Hx]. rewrite lookup_empty in Hx. discriminate.
  - discriminate.
  - discriminate.
Qed.
End Fresh.

Lemma ceil_div_bounds fs ps T :
  0 < ps -> 0 <= fs -> T = (fs + ps - 1) / ps ->
  0 <= T /\ (T - 1) * ps < fs <= T * ps.
Proof.
  intros Hps Hfs ->.
  pose proof (Z.div_mod (fs + ps - 1) ps ltac:(lia)) as Hdm.
  pose proof (Z.mod_pos_bound (fs + ps - 1) ps Hps) as Hmod.
  assert (0 <= (fs + ps - 1) / ps) by (apply Z.div_pos; lia).
  nia.
Qed.

Section Cover.
Context {R : Type} `{Remote R}.
Implicit Type u : ChunkedUploader R.

(** C6. A [start] on a new engine that ended with a successful commit, on
    a stream that holds exactly [file_size] bytes and a session whose
    [total_parts] is [file_size / part_size] rounded up and whose uploads
    answer with the record of what was sent: the list passed to [commit]
    has [total_parts] records; the [i]-th is at offset [i * part_size],
    so offsets strictly increase; every record but the last has
    [part_size] bytes and is followed by the record at its end; the last
    ends at [file_size]; no record is empty. *)
Theorem C6_committed_parts_cover_the_file fuel (session : UploadSession R)
    content sch k fs u' f :
  0 < part_size session ->
  honest R ->
  fs = Z.of_nat (length content) ->
  total_parts session = (fs + part_size session - 1) / part_size session ->
  start fuel (init session (mkStream content sch k) fs) = (u', Done f) ->
  (exists before,
      journal (upload_session u')
      = before ++ [CallCommit (sha1_digest (sha1 u')) (part_array u')])
  /\ Z.of_nat (length (part_array u')) = total_parts session
  /\ (forall i p, part_array u' !! i = Some p ->
        p_offset p = Z.of_nat i * part_size session
        /\ p_size p = Z.min (part_size session) (fs - Z.of_nat i * part_size session)
        /\ 0 < p_size p <= part_size session)
  /\ (forall i j p q, (i < j)%nat ->
        part_array u' !! i = Some p -> part_array u' !! j = Some q ->
        p_offset p < p_offset q)
  /\ (forall i p q,
        part_array u' !! i = Some p -> part_array u' !! S i = Some q ->
        p_size p = part_size session /\ p_offset q = p_offset p + p_size p)
  /\ (forall p, last (part_array u') = Some p -> p_offset p + p_size p = fs).
Proof.
  intros Hps Hhonest Hfs Htotal Hstart.
  set (ps := part_size session) in *. set (T := total_parts session) in *.
  rewrite start_unfold in Hstart by reflexivity.
  apply upload_and_commit_done in Hstart.
  destruct Hstart as (u1 & s' & Hup & Hcommit & ->).
  apply commit_session in Hcommit.
  cbn [upload_session part_array sha1 set_upload_session].
  unfold _upload in Hup.
  pose proof (upload_loop_count _ _ _ _ Hup) as (_ & Hlen & _).
  destruct (upload_loop_inv_done (in_step content ps T fs) fuel
              (fun v v' Hv _ Hb => in_step_pass content ps T fs fuel v v' Hps Hhonest Hv Hb)
              fuel _ _ (in_step_init content ps T fs session sch k eq_refl eq_refl) Hup)
    as ((_ & _ & _ & _ & _ & _ & Hrecs) & _).
  destruct (ceil_div_bounds fs ps T Hps ltac:(lia) Htotal) as (HT & Hlo & Hhi).
  unfold passes_left, init in Hlen. cbn in Hlen. fold T in Hlen.
  assert (HlenZ : Z.of_nat (length (part_array u1)) = T) by lia.
  assert (Hrec : forall i p, part_array u1 !! i = Some p ->
            p_offset p = Z.of_nat i * ps
            /\ p_size p = Z.min ps (fs - Z.of_nat i * ps)
            /\ Z.of_nat i < T).
  { intros i p Hi. destruct (Hrecs i p Hi) as (Hoff & Hsize).
    apply lookup_lt_Some in Hi.
    split; [exact Hoff|]. split; [|lia].
    rewrite Hsize, length_take, length_drop. nia. }
  split; [eexists; exact Hcommit|]. split; [exact HlenZ|].
  split; [|split; [|split]].
  - intros i p Hi. destruct (Hrec i p Hi) as (Hoff & Hsize & Hlt).
    split; [exact Hoff|]. split; [exact Hsize|]. nia.
  - intros i j p q Hij Hi Hj.
    destruct (Hrec i p Hi) as (-> & _). destruct (Hrec j q Hj) as (-> & _). nia.
  - intros i p q Hi Hj.
    destruct (Hrec i p Hi) as (Hoff & Hsize & _).
    destruct (Hrec (S i) q Hj) as (Hoff' & _ & Hlt).
    rewrite Hoff', Hoff, Hsize. nia.
  - intros p Hlast. rewrite last_lookup in Hlast.
    destruct (Hrec _ p Hlast) as (Hoff & Hsize & Hlt).
    rewrite Hoff, Hsize. nia.
Qed.
End Cover.

(** ** Resuming over parts that are already there *)

Lemma chunks_of_lookup size n content i :
  (i < n)%nat ->
  chunks_of size n content !! i = Some (take size (drop (i * size) content)).
Proof.
  revert content i. induction n as [|n IH]; intros content i Hi; [lia|].
  destruct i as [|i]; cbn.
  - reflexivity.
  - rewrite IH by lia. rewrite drop_drop. reflexivity.
Qed.

Lemma chunks_of_concat size n content :
  concat (chunks_of size n content) = take (n * size) content.
Proof.
  revert content. induction n as [|n IH]; intros content; cbn; [reflexivity|].
  rewrite IH. apply take_take_drop.
Qed.

Section Skip.
Context {R : Type} `{Remote R}.
Implicit Type u : ChunkedUploader R.

Lemma fold_reconcile_frame parts u :
  upload_session (fold_left reconcile parts u) = upload_session u
  /\ content_stream (fold_left reconcile parts u) = content_stream u
  /\ sha1 (fold_left reconcile parts u) = sha1 u
  /\ part_definitions (fold_left reconcile parts u)
     = cache_all parts (part_definitions u).
Proof.
  destruct (inflight_part u) as [ip|] eqn:Hin.
  - rewrite (fold_reconcile_inflight parts u ip Hin). cbn. auto.
  - rewrite (fold_reconcile_idle parts u Hin). cbn. auto.
Qed.

(** A new chunk is read and hashed at every pass of a loop that starts
    with no part in flight. *)
Lemma upload_loop_walk fuel n u u' st :
  inflight_part u = None ->
  content_stream u = Some st ->
  upload_loop fuel n u = (u', Done tt) ->
  sha1 u' = sha1 u ++ chunks_of (Z.to_nat (part_size (upload_session u)))
                        (passes_left u) (pending st)
  /\ exists st', content_stream u' = Some st'
       /\ pending st' = drop (passes_left u * Z.to_nat (part_size (upload_session u)))
                          (pending st).
Proof.
  revert u st. induction n as [|n IH]; intros u st Hin Hcs Hrun; unfold passes_left.
  - destruct (Z.ltb_spec (Z.of_nat (length (part_array u)))
                (total_parts (upload_session u))) as [L|L].
    + rewrite upload_loop_stall in Hrun by exact L. discriminate.
    + rewrite upload_loop_exit in Hrun by exact L. injection Hrun as <-.
      replace (Z.to_nat (total_parts (upload_session u) - Z.of_nat (length (part_array u))))
        with O by lia. cbn. rewrite app_nil_r. eauto.
  - destruct (Z.ltb_spec (Z.of_nat (length (part_array u)))
                (total_parts (upload_session u))) as [L|L].
    + rewrite upload_loop_pass in Hrun by exact L. unfold bind in Hrun.
      destruct (upload_body fuel u) as [u1 [[]|e|]] eqn:Hb; try discriminate.
      pose proof (upload_body_done_progress _ _ _ Hb) as (Hlen & _ & Ht & Hp & Hin1 & _).
      pose proof Hb as Hb'. apply upload_body_done in Hb'.
      destruct Hb' as (next & rec & s' & cs' & Hu1 & Hstream & _).
      destruct Hstream as [[Hsome _]|[_ (st0 & st1 & Hcs0 & -> & _ & Hpend & ->)]];
        [congruence|].
      rewrite Hcs in Hcs0. injection Hcs0 as <-.
      destruct (IH u1 st1 Hin1 ltac:(subst u1; reflexivity) Hrun) as (Hsha & st' & Hcs' & Hpend').
      replace (Z.to_nat (total_parts (upload_session u) - Z.of_nat (length (part_array u))))
        with (S (passes_left u1))
        by (unfold passes_left; rewrite Hlen, Ht; lia).
      rewrite Hp, Hpend in *. split.
      * rewrite Hsha. subst u1. cbn. rewrite <- app_assoc. reflexivity.
      * exists st'. split; [exact Hcs'|]. rewrite Hpend', drop_drop.
        f_equal; lia.
    + rewrite upload_loop_exit in Hrun by exact L. injection Hrun as <-.
      replace (Z.to_nat (total_parts (upload_session u) - Z.of_nat (length (part_array u))))
        with O by lia. cbn. rewrite app_nil_r. eauto.
Qed.

(** Whatever the engine and however [resume] ends, no request it sends
    after the listing is an upload at a listed offset. *)
Lemma resume_never_uploads_listed fuel u s parts u' (o : outcome File) :
  is_aborted u = false ->
  get_parts (upload_session u) = (s, Returns parts) ->
  resume fuel u = (u', o) ->
  exists calls,
    journal (upload_session u') = journal s ++ calls
    /\ forall p c, p ∈ parts -> c ∈ calls -> ~ uploads_at (p_offset p) c.
Proof.
  intros Hab Hget Hres.
  rewrite (resume_unfold fuel u s parts Hab Hget) in Hres.
  set (I := fun v : ChunkedUploader R =>
    (forall p, p ∈ parts -> is_Some (part_definitions v !! p_offset p))
    /\ exists calls,
         journal (upload_session v) = journal s ++ calls
         /\ forall p c, p ∈ parts -> c ∈ calls -> ~ uploads_at (p_offset p) c).
  assert (H0 : I (reconciled s parts u)).
  { unfold I, reconciled.
    destruct (fold_reconcile_frame parts (set_part_array [] (set_upload_session s u)))
      as (Hs & _ & _ & Hd).
    rewrite Hs, Hd. cbn. split.
    - intros p Hp. destruct (lookup_cache_all_listed parts (part_definitions u) p Hp)
        as (q & _ & _ & Hq). eauto.
    - exists []. rewrite app_nil_r. split; [reflexivity|].
      intros p c _ Hc. inversion Hc. }
  assert (Hstep : forall v v' ob, I v -> upload_body fuel v = (v', ob) -> I v').
  { intros v v' ob (Hkeys & calls & Hj & Hcalls) Hb.
    apply upload_body_any in Hb. destruct Hb as (_ & _ & _ & Hmono & Hjournal).
    split; [intros p Hp; apply Hmono, Hkeys, Hp|].
    destruct Hjournal as [Hsame|(c & k & t & Hnew & Hnone)].
    - exists calls. rewrite Hsame. auto.
    - exists (calls ++ [CallUploadPartBytes c k t]).
      rewrite Hnew, Hj, app_assoc. split; [reflexivity|].
      intros p c0 Hp Hc0. apply elem_of_app in Hc0. destruct Hc0 as [Hc0|Hc0].
      + apply Hcalls; assumption.
      + apply list_elem_of_singleton in Hc0. subst c0.
        intros (bs & t' & [= _ E _]).
        destruct (Hkeys p Hp) as [x Hx]. congruence. }
  unfold upload_and_commit, bind, gets, call, _upload in Hres.
  destruct (upload_loop fuel fuel (reconciled s parts u)) as [u1 o1] eqn:Hloop.
  pose proof (upload_loop_inv I fuel Hstep fuel _ _ _ H0 Hloop)
    as (_ & calls & Hj & Hcalls).
  destruct o1 as [[]|e|].
  - destruct (commit _ _ _) as [s' a] eqn:Hc. apply commit_session in Hc.
    exists (calls ++ [CallCommit (sha1_digest (sha1 u1)) (part_array u1)]).
    assert (Hu' : upload_session u' = s')
      by (destruct a; injection Hres as <- <-; reflexivity).
    rewrite Hu', Hc, Hj, app_assoc. split; [reflexivity|].
    intros p c Hp Hc0. apply elem_of_app in Hc0. destruct Hc0 as [Hc0|Hc0].
    + apply Hcalls; assumption.
    + apply list_elem_of_singleton in Hc0. subst c.
      intros (bs & t' & [=]).
  - injection Hres as <- <-. eauto.
  - injection Hres as <- <-. eauto.
Qed.

(** A new engine whose [resume] returns the file has hashed the chunks of
    its stream, one per part and in order, and committed their digest. *)
Lemma resume_new_engine_hashes fuel (session s : UploadSession R)
    content sch k0 fs parts u' f :
  get_parts session = (s, Returns parts) ->
  resume fuel (init session (mkStream content sch k0) fs) = (u', Done f) ->
  sha1 u' = chunks_of (Z.to_nat (part_size session))
              (Z.to_nat (total_parts session)) content
  /\ (forall p i, p ∈ parts -> (i < Z.to_nat (total_parts session))%nat ->
        p_offset p = Z.of_nat i * part_size session ->
        sha1 u' !! i
        = Some (take (Z.to_nat (part_size session))
                  (drop (i * Z.to_nat (part_size session)) content)))
  /\ exists before,
       journal (upload_session u')
       = before ++ [CallCommit
           (SHA1.hash (take (Z.to_nat (total_parts session)
                             * Z.to_nat (part_size session)) content))
           (part_array u')].
Proof.
  intros Hget Hres.
  rewrite (resume_unfold fuel (init session (mkStream content sch k0) fs)
             s parts eq_refl Hget) in Hres.
  apply upload_and_commit_done in Hres.
  destruct Hres as (u1 & s' & Hup & Hcommit & ->).
  apply commit_session in Hcommit.
  cbn [sha1 set_upload_session upload_session part_array].
  unfold _upload in Hup.
  assert (Hget' : total_parts s = total_parts session
                  /\ part_size s = part_size session).
  { unfold get_parts in Hget. destruct (remote_get_parts _).
    injection Hget as <- _. auto. }
  destruct Hget' as (Ht & Hp).
  set (u0 := reconciled s parts (init session (mkStream content sch k0) fs)) in *.
  assert (Hu0 : inflight_part u0 = None /\ part_array u0 = []
                /\ content_stream u0 = Some (mkStream content sch k0)
                /\ sha1 u0 = [] /\ upload_session u0 = s).
  { unfold u0, reconciled. rewrite fold_reconcile_idle by reflexivity.
    cbn. auto. }
  destruct Hu0 as (Hin & Hparts & Hcs & Hsha0 & Hs0).
  destruct (upload_loop_walk fuel fuel u0 u1 _ Hin Hcs Hup) as (Hsha & _).
  unfold passes_left in Hsha. rewrite Hsha0, Hparts, Hs0, Ht, Hp in Hsha.
  cbn [length app] in Hsha. rewrite Z.sub_0_r in Hsha.
  split; [exact Hsha|]. split.
  - intros p i _ Hi _. rewrite Hsha. apply chunks_of_lookup. exact Hi.
  - eexists. rewrite Hcommit. unfold sha1_digest.
    rewrite Hsha, chunks_of_concat. reflexivity.
Qed.

(** C2, as the code has it.  Whatever the state of the engine and however
    the run ends, no request [resume] sends after the listing is an
    [upload_part_bytes] at the offset of a listed part.  On a new engine,
    whose stream stands at the start of the content and which has hashed
    nothing, a [resume] that returns the file has hashed the chunks of the
    local stream, one per part and in order, those of the listed parts
    among them: the chunk hashed for the [i]-th part is bytes
    [i * part_size] onwards of the stream, and the digest sent to [commit]
    is that of the bytes read. *)
Theorem C2_resume_skips_listed_parts_but_hashes_them fuel u s parts u' o :
  is_aborted u = false ->
  get_parts (upload_session u) = (s, Returns parts) ->
  resume fuel u = (u', o) ->
  (exists calls,
      journal (upload_session u') = journal s ++ calls
      /\ forall p c, p ∈ parts -> c ∈ calls -> ~ uploads_at (p_offset p) c)
  /\ (forall session content sch k0 fs f,
        u = init session (mkStream content sch k0) fs ->
        o = Done f ->
        sha1 u' = chunks_of (Z.to_nat (part_size session))
                    (Z.to_nat (total_parts session)) content
        /\ (forall p i, p ∈ parts -> (i < Z.to_nat (total_parts session))%nat ->
              p_offset p = Z.of_nat i * part_size session ->
              sha1 u' !! i
              = Some (take (Z.to_nat (part_size session))
                        (drop (i * Z.to_nat (part_size session)) content)))
        /\ exists before,
             journal (upload_session u')
             = before ++ [CallCommit
                 (SHA1.hash (take (Z.to_nat (total_parts session)
                                   * Z.to_nat (part_size session)) content))
                 (part_array u')]).
Proof.
  intros Hab Hget Hres. split.
  - exact (resume_never_uploads_listed fuel u s parts u' o Hab Hget Hres).
  - intros session content sch k0 fs f -> ->.
    exact (resume_new_engine_hashes fuel session s content sch k0 fs parts u' f
             Hget Hres).
Qed.
End Skip.

(** ** The sample runs *)

Lemma server_honest : honest Server.
Proof.
  intros r bs o t r' p. cbn. unfold server_upload.
  destruct (fates r) as [|[| |] rest]; intros [= <- <-]; try discriminate; auto.
Qed.

Lemma slow_responsive content : responsive (schedule (slow content)).
Proof.
  intros i. exists (i + 6)%nat. split; [lia|].
  unfold slow. cbn [schedule].
  rewrite (proj2 (Nat.ltb_ge (i + 6) 6)) by lia. cbn. discriminate.
Qed.

Lemma slow_faultless content : faultless (schedule (slow content)).
Proof. intros i. cbn. destruct (_ && _); discriminate. Qed.

(** C2, as the specification words it, fails on an engine that has read
    from its stream.  The stream raised while the second part was being
    read, after the first part was uploaded; [resume] lists that part, and
    the chunk it reads and hashes for offset 0 is bytes four and five of the
    file, not the bytes of the listed part.  The other two chunks are empty
    and are uploaded at offsets 2 and 4; no request is an upload at
    offset 0. *)
Lemma C2_counterexample :
  is_aborted between_parts = false
  /\ inflight_part between_parts = None
  /\ sha1 between_parts = [[x01; x02]]
  /\ stored (remote (upload_session between_parts)) = [(mkPart 0 2 1, [x01; x02])]
  /\ get_parts (upload_session between_parts)
     = (fst (get_parts (upload_session between_parts)), Returns [mkPart 0 2 1])
  /\ sha1 (fst (resume 20 between_parts)) = [[x01; x02]; [x04; x05]; []; []]
  /\ drop (length (sha1 between_parts)) (sha1 (fst (resume 20 between_parts))) !! 0%nat
     = Some [x04; x05]
  /\ take 2 (drop (0 * 2) content5) = [x01; x02]
  /\ drop (length (sha1 between_parts)) (sha1 (fst (resume 20 between_parts))) !! 0%nat
     <> Some (take 2 (drop (0 * 2) content5))
  /\ drop 1 (journal (upload_session (fst (resume 20 between_parts))))
     = [CallGetParts;
        CallUploadPartBytes [] 2 5;
        CallUploadPartBytes [] 4 5;
        CallCommit (SHA1.hash [x01; x02; x04; x05])
          [mkPart 0 2 1; mkPart 2 0 2; mkPart 4 0 3]]
  /\ snd (resume 20 between_parts) = Threw (SessionError 400).
Proof. vm_compute. repeat split; discriminate. Qed.

Lemma C2_witness :
  sha1 (fst (resume 20 taken_over)) = chunks_of 2 3 content5
  /\ (forall c, c ∈ drop 1 (journal (upload_session (fst (resume 20 taken_over)))) ->
                ~ uploads_at 0 c)
  /\ (forall c, c ∈ drop 2 (journal (upload_session (fst (resume 20 between_parts)))) ->
                ~ uploads_at 0 c).
Proof.
  pose proof (C2_resume_skips_listed_parts_but_hashes_them 20 taken_over
                (fst (get_parts (upload_session taken_over)))
                [mkPart 0 2 1]
                (fst (resume 20 taken_over)) (snd (resume 20 taken_over))) as W.
  assert (H0 : is_aborted taken_over = false) by reflexivity.
  assert (H1 : get_parts (upload_session taken_over)
               = (fst (get_parts (upload_session taken_over)), Returns [mkPart 0 2 1]))
    by (vm_compute; reflexivity).
  assert (H2 : resume 20 taken_over
               = (fst (resume 20 taken_over), snd (resume 20 taken_over)))
    by (vm_compute; reflexivity).
  specialize (W H0 H1 H2). destruct W as ((calls & Hj & Hcalls) & Hdone).
  assert (H3 : snd (resume 20 taken_over)
               = Done (returned (snd (resume 20 taken_over))))
    by (vm_compute; reflexivity).
  assert (H4 : taken_over
               = init (upload_session taken_over)
                   (mkStream content5 (fun _ => Deliver 0) 0%nat) 5)
    by reflexivity.
  destruct (Hdone _ _ _ _ _ _ H4 H3) as (Hsha & _).
  pose proof (C2_resume_skips_listed_parts_but_hashes_them 20 between_parts
                (fst (get_parts (upload_session between_parts)))
                [mkPart 0 2 1]
                (fst (resume 20 between_parts)) (snd (resume 20 between_parts))) as V.
  assert (G0 : is_aborted between_parts = false) by (vm_compute; reflexivity).
  assert (G1 : get_parts (upload_session between_parts)
               = (fst (get_parts (upload_session between_parts)),
                  Returns [mkPart 0 2 1]))
    by (vm_compute; reflexivity).
  assert (G2 : resume 20 between_parts
               = (fst (resume 20 between_parts), snd (resume 20 between_parts)))
    by (vm_compute; reflexivity).
  specialize (V G0 G1 G2). destruct V as ((calls' & Hj' & Hcalls') & _).
  split; [exact Hsha|]. split.
  - intros c Hc. apply (Hcalls (mkPart 0 2 1) c).
    + apply list_elem_of_here.
    + rewrite Hj in Hc. exact Hc.
  - intros c Hc. apply (Hcalls' (mkPart 0 2 1) c).
    + apply list_elem_of_here.
    + rewrite Hj' in Hc. exact Hc.
Defined.

Lemma C6_witness :
  Z.of_nat (length (part_array (fst (start 20 (fresh []))))) = 3
  /\ forall p, last (part_array (fst (start 20 (fresh [])))) = Some p ->
               p_offset p + p_size p = 5.
Proof.
  pose proof (C6_committed_parts_cover_the_file 20 (session0 3 2 []) content5
                (schedule (slow content5)) 0%nat 5
                (fst (start 20 (fresh []))) (returned (snd (start 20 (fresh [])))))
    as W.
  assert (H1 : 0 < part_size (session0 3 2 [])) by (vm_compute; reflexivity).
  assert (H2 : 5 = Z.of_nat (length content5)) by (vm_compute; reflexivity).
  assert (H3 : total_parts (session0 3 2 [])
               = (5 + part_size (session0 3 2 []) - 1) / part_size (session0 3 2 []))
    by (vm_compute; reflexivity).
  assert (H4 : start 20 (init (session0 3 2 [])
                           (mkStream content5 (schedule (slow content5)) 0%nat) 5)
               = (fst (start 20 (fresh [])), Done (returned (snd (start 20 (fresh []))))))
    by (vm_compute; reflexivity).
  specialize (W H1 server_honest H2 H3 H4).
  destruct W as (_ & Hlen & _ & _ & _ & Hlast).
  split; [exact Hlen | exact Hlast].
Defined.

Lemma C8_witness :
  (forall fuel u' p, _get_next_part fuel (fresh []) = (u', Done p) ->
     chunk p = [x01; x02])
  /\ exists fuel0, forall fuel, (fuel0 <= fuel)%nat ->
       exists u' p, _get_next_part fuel (fresh []) = (u', Done p).
Proof.
  destruct (C8_chunk_assembly_waits_for_bytes (fresh []) (slow content5))
    as (Hchunk & _ & Hends).
  - reflexivity.
  - split.
    + intros fuel u' p Hrun. destruct (Hchunk fuel u' p Hrun) as (Hc & _). exact Hc.
    + apply Hends; [apply slow_responsive | apply slow_faultless].
Defined.

(** The run on the starved stream: the second chunk is short, the third is
    empty, and both are hashed and uploaded. *)
Example starved_run :
  snd (_upload 20 starved) = Done tt
  /\ sha1 (fst (_upload 20 starved)) = [[x01; x02]; [x03]; []]
  /\ journal (upload_session (fst (_upload 20 starved)))
     = [CallUploadPartBytes [x01; x02] 0 5;
        CallUploadPartBytes [x03] 2 5;
        CallUploadPartBytes [] 4 5].
Proof. vm_compute. repeat split. Qed.

(** C1, at a failing input.  A file of five bytes in parts of two; the
    upload of the second part is refused and [start] raises with that part
    in flight; [resume] on the same engine lists the first part, takes the
    part in flight up again and hashes its chunk a second time.  The digest
    it sends to [commit] is that of seven bytes and differs from the digest
    of the run that was not interrupted, and the session refuses the
    commit. *)
Theorem C1_resume_hashes_part_in_flight_twice :
  snd (start 20 (fresh [Serve; Refuse])) = Threw (SessionError 500)
  /\ inflight_part interrupted = Some (mkInflightPart 2 [x03; x04] 5)
  /\ sha1 interrupted = [[x01; x02]; [x03; x04]]
  /\ snd (get_parts (upload_session interrupted)) = Returns [mkPart 0 2 1]
  /\ sha1 (fst (resume 20 interrupted))
     = [[x01; x02]; [x03; x04]; [x03; x04]; [x05]]
  /\ sha1 (fst (start 20 (fresh []))) = [[x01; x02]; [x03; x04]; [x05]]
  /\ last (journal (upload_session (fst (resume 20 interrupted))))
     = Some (CallCommit (SHA1.hash [x01; x02; x03; x04; x03; x04; x05])
               [mkPart 0 2 1; mkPart 2 2 2; mkPart 4 1 3])
  /\ last (journal (upload_session (fst (start 20 (fresh [])))))
     = Some (CallCommit (SHA1.hash content5)
               [mkPart 0 2 1; mkPart 2 2 2; mkPart 4 1 3])
  /\ SHA1.hash [x01; x02; x03; x04; x03; x04; x05] <> SHA1.hash content5
  /\ snd (resume 20 interrupted) = Threw (SessionError 400)
  /\ snd (start 20 (fresh []))
     = Done (mkFile (SHA1.hash content5)
               [mkPart 0 2 1; mkPart 2 2 2; mkPart 4 1 3]).
Proof. vm_compute. repeat split; discriminate. Qed.

(** * Further properties of the engine *)

(** ** Passes that raise *)

Lemma read_chunk_threw fuel size st copied_length chunk st' e :
  read_chunk fuel size st copied_length chunk = (st', Threw e) ->
  e = StreamError
  /\ schedule st' = schedule st
  /\ exists k, pending st' = drop k (pending st).
Proof.
  revert st copied_length chunk.
  induction fuel as [|fuel IH]; intros st copied_length chunk; cbn [read_chunk].
  - destruct (_ <? _); discriminate.
  - destruct (_ <? _); [|discriminate].
    unfold stream_read. destruct (schedule st (reads st)) as [|extra|].
    + intros Hrun. apply IH in Hrun. cbn in Hrun. exact Hrun.
    + destruct (take _ (pending st)); [discriminate|].
      intros Hrun. apply IH in Hrun. cbn in Hrun.
      destruct Hrun as (He & Hs & k & Hk). split; [exact He|]. split; [exact Hs|].
      rewrite drop_drop in Hk. eauto.
    + intros [= <- <-]. cbn. split; [reflexivity|]. split; [reflexivity|].
      exists O. reflexivity.
Qed.

Section Failures.
Context {R : Type} `{Remote R}.
Implicit Type u : ChunkedUploader R.

Lemma get_next_part_threw fuel u u' e :
  _get_next_part fuel u = (u', Threw e) ->
  (content_stream u = None /\ u' = u /\ e = AssertionError)
  \/ (exists st st' k,
        content_stream u = Some st
        /\ u' = set_content_stream (Some st') u
        /\ schedule st' = schedule st
        /\ pending st' = drop k (pending st)
        /\ e = StreamError).
Proof.
  unfold _get_next_part. destruct (content_stream u) as [st|] eqn:Hcs.
  - destruct (read_chunk _ _ _ _ _) as [st' [c|e'|]] eqn:Hrun; try discriminate.
    intros [= <- <-]. apply read_chunk_threw in Hrun.
    destruct Hrun as (-> & Hs & k & Hk). right. exists st, st', k. auto.
  - intros [= <- <-]. left. auto.
Qed.

(** The two ways a pass can raise.  Before the part is made (the stream is
    gone, or a read raised) nothing but the stream has changed: no part is in
    flight, nothing was hashed, no request was sent.  In the upload, the part
    stays in flight with its chunk already hashed, and the committed list and
    the cache are as before. *)
Lemma upload_body_threw fuel u u' e :
  upload_body fuel u = (u', Threw e) ->
  (inflight_part u = None
   /\ _get_next_part fuel u = (u', Threw e))
  \/ (exists next cs',
        u' = mkUploader (upload_session u') cs' (file_size u) (part_array u)
               (sha1 u ++ [chunk next]) (part_definitions u) (Some next)
               (is_aborted u)
        /\ part_definitions u !! offset next = None
        /\ upload_part_bytes (upload_session u) (chunk next) (offset next)
             (total_size next) = (upload_session u', Raises e)
        /\ ((inflight_part u = Some next /\ cs' = content_stream u)
            \/ (inflight_part u = None
                /\ _get_next_part fuel u
                   = (set_content_stream cs' u, Done next)))).
Proof.
  unfold upload_body, bind, modify, ret, InflightPart_upload, call.
  destruct (inflight_part u) as [ip|] eqn:Hin.
  - cbn. destruct (part_definitions u !! offset ip) as [rec|] eqn:Hdef;
      [discriminate|].
    destruct (upload_part_bytes _ _ _ _) as [s' [rec|e']] eqn:Hup; [discriminate|].
    intros [= <- <-]. right. exists ip, (content_stream u). cbn.
    split; [reflexivity|]. split; [exact Hdef|]. split; [exact Hup|]. left. auto.
  - destruct (_get_next_part fuel u) as [u1 [p|e'|]] eqn:Hnext; try discriminate.
    + destruct (get_next_part_frame _ _ _ _ Hnext) as [cs ->]. cbn.
      destruct (part_definitions u !! offset p) as [rec|] eqn:Hdef; [discriminate|].
      destruct (upload_part_bytes _ _ _ _) as [s' [rec|e']] eqn:Hup; [discriminate|].
      intros [= <- <-]. right. exists p, cs. cbn.
      split; [reflexivity|]. split; [exact Hdef|]. split; [exact Hup|]. right. auto.
    + intros [= <- <-]. left. auto.
Qed.


End Failures.



(** On the breaking stream the first byte is read and lost: the stream
    stands at the second byte and the engine holds no chunk. *)
Example broken_run :
  snd (upload_body 20 broken) = Threw StreamError
  /\ (pending <$> content_stream (fst (upload_body 20 broken)))
     = Some [x02; x03; x04; x05]
  /\ sha1 (fst (upload_body 20 broken)) = []
  /\ inflight_part (fst (upload_body 20 broken)) = None.
Proof. vm_compute. repeat split. Qed.

(** ** The requests of a run *)

Lemma planned_uploads_ext cached cached' ps fs i chunks :
  (forall j, (i <= j)%nat -> cached (Z.of_nat j * ps) = cached' (Z.of_nat j * ps)) ->
  planned_uploads cached ps fs i chunks = planned_uploads cached' ps fs i chunks.
Proof.
  revert i. induction chunks as [|c rest IH]; intros i Hext; [reflexivity|].
  cbn. rewrite (Hext i) by lia. rewrite (IH (S i)) by (intros j Hj; apply Hext; lia).
  reflexivity.
Qed.

Lemma in_cache_cache_all parts d k :
  in_cache (cache_all parts d) k = true
  <-> (exists p, p ∈ parts /\ p_offset p = k) \/ in_cache d k = true.
Proof.
  unfold in_cache. split.
  - destruct (cache_all parts d !! k) as [q|] eqn:Hq; [intros _|discriminate].
    destruct (existsb (fun p => p_offset p =? k) parts) eqn:Hex.
    + left. apply existsb_offset. exact Hex.
    + right. rewrite lookup_cache_all_other in Hq.
      * rewrite Hq. reflexivity.
      * intros p Hp E. assert (existsb (fun p => p_offset p =? k) parts = true)
          by (apply existsb_offset; eauto). congruence.
  - intros [(p & Hp & <-)|Hd].
    + destruct (lookup_cache_all_listed parts d p Hp) as (q & _ & _ & ->). reflexivity.
    + destruct (existsb (fun p => p_offset p =? k) parts) eqn:Hex.
      * apply existsb_offset in Hex. destruct Hex as (p & Hp & <-).
        destruct (lookup_cache_all_listed parts d p Hp) as (q & _ & _ & ->). reflexivity.
      * rewrite lookup_cache_all_other; [exact Hd|].
        intros p Hp E. assert (existsb (fun p => p_offset p =? k) parts = true)
          by (apply existsb_offset; eauto). congruence.
Qed.

Section Transcript.
Context {R : Type} `{Remote R}.
Implicit Type u : ChunkedUploader R.

(** The requests of a loop that starts with no part in flight: the
    uploads planned for the chunks it reads, those at cached offsets left
    out. *)
Lemma upload_loop_transcript fuel n u u' st :
  part_size (upload_session u) <> 0 ->
  inflight_part u = None ->
  content_stream u = Some st ->
  upload_loop fuel n u = (u', Done tt) ->
  journal (upload_session u')
  = journal (upload_session u)
    ++ planned_uploads (in_cache (part_definitions u))
         (part_size (upload_session u)) (file_size u) (length (part_array u))
         (chunks_of (Z.to_nat (part_size (upload_session u)))
            (passes_left u) (pending st))
  /\ file_size u' = file_size u.
Proof.
  revert u st. induction n as [|n IH]; intros u st Hps Hin Hcs Hrun; unfold passes_left.
  - destruct (Z.ltb_spec (Z.of_nat (length (part_array u)))
                (total_parts (upload_session u))) as [L|L].
    + rewrite upload_loop_stall in Hrun by exact L. discriminate.
    + rewrite upload_loop_exit in Hrun by exact L. injection Hrun as <-.
      replace (Z.to_nat (total_parts (upload_session u) - Z.of_nat (length (part_array u))))
        with O by lia.
      cbn. rewrite app_nil_r. auto.
  - destruct (Z.ltb_spec (Z.of_nat (length (part_array u)))
                (total_parts (upload_session u))) as [L|L].
    + rewrite upload_loop_pass in Hrun by exact L. unfold bind in Hrun.
      destruct (upload_body fuel u) as [u1 [[]|e|]] eqn:Hb; try discriminate.
      pose proof (upload_body_done_progress _ _ _ Hb) as (Hlen & _ & Ht & Hp & Hin1 & _).
      pose proof Hb as Hb'. apply upload_body_done in Hb'.
      destruct Hb' as (next & rec & s' & cs' & Hu1 & Hstream & Hcache).
      destruct Hstream as [[Hsome _]|[_ (st0 & st1 & Hcs0 & -> & _ & Hpend & ->)]];
        [congruence|].
      rewrite Hcs in Hcs0. injection Hcs0 as <-.
      cbn [offset chunk total_size] in Hcache, Hu1.
      assert (Hd1 : part_definitions u1
                    = <[Z.of_nat (length (part_array u)) * part_size (upload_session u) := rec]>
                        (part_definitions u)) by (subst u1; reflexivity).
      assert (Hfs1 : file_size u1 = file_size u) by (subst u1; reflexivity).
      assert (Hcs1 : content_stream u1 = Some st1) by (subst u1; reflexivity).
      assert (Hs1 : upload_session u1 = s') by (subst u1; reflexivity).
      destruct (IH u1 st1 ltac:(congruence) Hin1 Hcs1 Hrun) as (Hj & Hfs).
      split; [|congruence].
      replace (Z.to_nat (total_parts (upload_session u) - Z.of_nat (length (part_array u))))
        with (S (passes_left u1))
        by (unfold passes_left; rewrite Hlen, Ht; lia).
      cbn [chunks_of planned_uploads].
      rewrite Hj, Hp, Hfs1, Hlen, Hpend, Hd1.
      rewrite (planned_uploads_ext
                 (in_cache (<[Z.of_nat (length (part_array u)) * part_size (upload_session u) := rec]>
                              (part_definitions u)))
                 (in_cache (part_definitions u))).
      2:{ intros j Hj'. unfold in_cache. rewrite lookup_insert_ne; [reflexivity|]. nia. }
      unfold in_cache at 2.
      destruct Hcache as [[Hhit Hs']|[Hmiss Hup]].
      * rewrite Hhit. rewrite Hs1, Hs'. reflexivity.
      * rewrite Hmiss. apply upload_part_bytes_session in Hup.
        destruct Hup as (_ & _ & Hj1). rewrite Hs1, Hj1, <- app_assoc. reflexivity.
    + rewrite upload_loop_exit in Hrun by exact L. injection Hrun as <-.
      replace (Z.to_nat (total_parts (upload_session u) - Z.of_nat (length (part_array u))))
        with O by lia.
      cbn. rewrite app_nil_r. auto.
Qed.

Lemma get_parts_session (s s' : UploadSession R) a :
  get_parts s = (s', a) ->
  total_parts s' = total_parts s /\ part_size s' = part_size s
  /\ journal s' = journal s ++ [CallGetParts].
Proof.
  unfold get_parts. destruct (remote_get_parts _). intros [= <- <-]. auto.
Qed.

Lemma resume_idle_run fuel u s parts st u' f :
  is_aborted u = false ->
  inflight_part u = None ->
  content_stream u = Some st ->
  part_size (upload_session u) <> 0 ->
  get_parts (upload_session u) = (s, Returns parts) ->
  resume fuel u = (u', Done f) ->
  sha1 u' = sha1 u ++ chunks_of (Z.to_nat (part_size (upload_session u)))
                        (Z.to_nat (total_parts (upload_session u))) (pending st)
  /\ journal (upload_session u')
     = journal s
       ++ planned_uploads (in_cache (cache_all parts (part_definitions u)))
            (part_size (upload_session u)) (file_size u) 0
            (chunks_of (Z.to_nat (part_size (upload_session u)))
               (Z.to_nat (total_parts (upload_session u))) (pending st))
       ++ [CallCommit (sha1_digest (sha1 u')) (part_array u')].
Proof.
  intros Hab Hin Hcs Hps Hget Hres.
  rewrite (resume_unfold fuel u s parts Hab Hget) in Hres.
  apply upload_and_commit_done in Hres.
  destruct Hres as (u1 & s' & Hup & Hcommit & ->).
  apply commit_session in Hcommit.
  cbn [sha1 set_upload_session upload_session part_array].
  destruct (get_parts_session _ _ _ Hget) as (Ht & Hp & _).
  set (u0 := reconciled s parts u) in *.
  assert (Hu0 : u0 = set_part_definitions (cache_all parts (part_definitions u))
                       (set_part_array [] (set_upload_session s u))).
  { unfold u0, reconciled. rewrite fold_reconcile_idle by exact Hin. reflexivity. }
  assert (Hin0 : inflight_part u0 = None) by (rewrite Hu0; exact Hin).
  assert (Hcs0 : content_stream u0 = Some st) by (rewrite Hu0; exact Hcs).
  assert (Hps0 : part_size (upload_session u0) <> 0) by (rewrite Hu0; cbn; congruence).
  unfold _upload in Hup.
  destruct (upload_loop_walk fuel fuel u0 u1 st Hin0 Hcs0 Hup) as (Hsha & _).
  destruct (upload_loop_transcript fuel fuel u0 u1 st Hps0 Hin0 Hcs0 Hup) as (Hj & _).
  unfold passes_left in Hsha, Hj. rewrite Hu0 in Hsha, Hj.
  cbn in Hsha, Hj. rewrite Ht, Hp, Z.sub_0_r in Hsha, Hj.
  split; [exact Hsha|].
  rewrite Hcommit, Hj, <- app_assoc. reflexivity.
Qed.


(** X3. [resume] with no part in flight takes the next [total_parts]
    chunks of the stream, from where the stream stands, as parts 0, 1, ...:
    it hashes each of them, uploads the [i]-th at offset [i * part_size]
    unless that offset is listed or was cached before, and then commits.  On
    a new engine these are the parts of the file and the uploads are exactly
    the parts the session did not list; on an engine that has read from its
    stream already the stream is not rewound. *)
Theorem X3_resume_idle_uploads_the_uncached_parts fuel u s parts st u' f :
  is_aborted u = false ->
  inflight_part u = None ->
  content_stream u = Some st ->
  part_size (upload_session u) <> 0 ->
  get_parts (upload_session u) = (s, Returns parts) ->
  resume fuel u = (u', Done f) ->
  sha1 u' = sha1 u ++ chunks_of (Z.to_nat (part_size (upload_session u)))
                        (Z.to_nat (total_parts (upload_session u))) (pending st)
  /\ journal (upload_session u')
     = journal s
       ++ planned_uploads (in_cache (cache_all parts (part_definitions u)))
            (part_size (upload_session u)) (file_size u) 0
            (chunks_of (Z.to_nat (part_size (upload_session u)))
               (Z.to_nat (total_parts (upload_session u))) (pending st))
       ++ [CallCommit (sha1_digest (sha1 u')) (part_array u')].
Proof. exact (resume_idle_run fuel u s parts st u' f). Qed.

(** X4. [start] on a new engine, with a stream that holds the file and
    [total_parts] the file size over [part_size] rounded up: when it returns
    the file it has uploaded every part once, in order, the [i]-th chunk of
    the stream at offset [i * part_size], has read the stream to its end,
    and has sent to [commit] the SHA-1 of the whole content. *)
Theorem X4_start_uploads_every_part_and_commits_the_digest fuel
    (session : UploadSession R) content sch k fs u' f :
  0 < part_size session ->
  total_parts session
  = (Z.of_nat (length content) + part_size session - 1) / part_size session ->
  start fuel (init session (mkStream content sch k) fs) = (u', Done f) ->
  sha1 u' = chunks_of (Z.to_nat (part_size session))
              (Z.to_nat (total_parts session)) content
  /\ concat (sha1 u') = content
  /\ journal (upload_session u')
     = journal session
       ++ planned_uploads (fun _ => false) (part_size session) fs 0
            (chunks_of (Z.to_nat (part_size session))
               (Z.to_nat (total_parts session)) content)
       ++ [CallCommit (SHA1.hash content) (part_array u')]
  /\ exists st', content_stream u' = Some st' /\ pending st' = [].
Proof.
  intros Hps Htotal Hstart.
  rewrite start_unfold in Hstart by reflexivity.
  apply upload_and_commit_done in Hstart.
  destruct Hstart as (u1 & s' & Hup & Hcommit & ->).
  apply commit_session in Hcommit.
  cbn [sha1 set_upload_session upload_session part_array content_stream].
  unfold _upload in Hup.
  set (u0 := init session (mkStream content sch k) fs) in *.
  destruct (upload_loop_walk fuel fuel u0 u1 _ eq_refl eq_refl Hup)
    as (Hsha & st' & Hcs' & Hpend').
  destruct (upload_loop_transcript fuel fuel u0 u1 _ ltac:(cbn; lia) eq_refl eq_refl Hup)
    as (Hj & _).
  unfold passes_left in Hsha, Hj, Hpend'. cbn in Hsha, Hj, Hpend'.
  rewrite Z.sub_0_r in Hsha, Hj, Hpend'.
  destruct (ceil_div_bounds (Z.of_nat (length content)) (part_size session)
              (total_parts session) Hps ltac:(lia) Htotal) as (HT & _ & Hhi).
  assert (Hcat : concat (sha1 u1) = content).
  { rewrite Hsha, chunks_of_concat. apply take_ge. nia. }
  split; [exact Hsha|]. split; [exact Hcat|]. split.
  - rewrite Hcommit, Hj, <- app_assoc. unfold sha1_digest. rewrite Hcat.
    f_equal.
  - exists st'. split; [exact Hcs'|]. rewrite Hpend'. apply drop_ge. nia.
Qed.
End Transcript.

(** ** What the loop hashes and sends *)

Section LoopRuns.
Context {R : Type} `{Remote R}.
Implicit Type u : ChunkedUploader R.


End LoopRuns.


Lemma X3_witness :
  sha1 (fst (resume 20 taken_over)) = [] ++ chunks_of 2 3 content5
  /\ journal (upload_session (fst (resume 20 taken_over)))
     = [CallGetParts; CallUploadPartBytes [x03; x04] 2 5; CallUploadPartBytes [x05] 4 5;
        CallCommit (sha1_digest (sha1 (fst (resume 20 taken_over))))
          (part_array (fst (resume 20 taken_over)))].
Proof.
  pose proof (X3_resume_idle_uploads_the_uncached_parts 20 taken_over
                (fst (get_parts (upload_session taken_over))) [mkPart 0 2 1]
                (steady content5) (fst (resume 20 taken_over))
                (returned (snd (resume 20 taken_over)))) as W.
  assert (H1 : is_aborted taken_over = false) by (vm_compute; reflexivity).
  assert (H2 : inflight_part taken_over = None) by (vm_compute; reflexivity).
  assert (H3 : content_stream taken_over = Some (steady content5))
    by (vm_compute; reflexivity).
  assert (H4 : part_size (upload_session taken_over) <> 0)
    by (vm_compute; discriminate).
  assert (H5 : get_parts (upload_session taken_over)
               = (fst (get_parts (upload_session taken_over)), Returns [mkPart 0 2 1]))
    by (vm_compute; reflexivity).
  assert (H6 : resume 20 taken_over
               = (fst (resume 20 taken_over),
                  Done (returned (snd (resume 20 taken_over)))))
    by (vm_compute; reflexivity).
  destruct (W H1 H2 H3 H4 H5 H6) as (Hsha & Hj).
  split; [exact Hsha | exact Hj].
Defined.

Lemma X4_witness :
  concat (sha1 (fst (start 20 (fresh [])))) = content5
  /\ journal (upload_session (fst (start 20 (fresh []))))
     = [CallUploadPartBytes [x01; x02] 0 5; CallUploadPartBytes [x03; x04] 2 5;
        CallUploadPartBytes [x05] 4 5;
        CallCommit (SHA1.hash content5) (part_array (fst (start 20 (fresh []))))].
Proof.
  pose proof (X4_start_uploads_every_part_and_commits_the_digest 20
                (session0 3 2 []) content5 (schedule (slow content5)) 0%nat 5
                (fst (start 20 (fresh []))) (returned (snd (start 20 (fresh [])))))
    as W.
  assert (H1 : 0 < part_size (session0 3 2 [])) by (vm_compute; reflexivity).
  assert (H2 : total_parts (session0 3 2 [])
               = (Z.of_nat (length content5) + part_size (session0 3 2 []) - 1)
                 / part_size (session0 3 2 []))
    by (vm_compute; reflexivity).
  assert (H3 : start 20 (init (session0 3 2 [])
                           (mkStream content5 (schedule (slow content5)) 0%nat) 5)
               = (fst (start 20 (fresh [])),
                  Done (returned (snd (start 20 (fresh []))))))
    by (vm_compute; reflexivity).
  destruct (W H1 H2 H3) as (_ & Hcat & Hj & _).
  split; [exact Hcat | exact Hj].
Defined.

(** ** The digest accumulator across a failure *)

Lemma kept_upto_length x parts :
  (length (kept_upto x parts) <= length parts)%nat.
Proof.
  induction parts as [|p parts IH]; cbn; [lia|].
  destruct (_ =? _); [cbn; lia|]. destruct (_ <? _); cbn; lia.
Qed.

Section Accumulator.
Context {R : Type} `{Remote R}.
Implicit Type u : ChunkedUploader R.

(** A pass only appends to the accumulator; with a part in flight it
    appends the chunk of that part, however the pass ends. *)
Lemma upload_body_sha1 fuel u u' (o : outcome unit) :
  upload_body fuel u = (u', o) ->
  (exists l, sha1 u' = sha1 u ++ l)
  /\ (forall ip, inflight_part u = Some ip -> sha1 u' = sha1 u ++ [chunk ip]).
Proof.
  intros Hb. destruct o as [[]|e|].
  - apply upload_body_done in Hb.
    destruct Hb as (next & rec & s' & cs' & -> & Hstream & _). cbn.
    split; [eauto|]. intros ip Hip.
    destruct Hstream as [[Hsome _]|[Hnone _]]; congruence.
  - apply upload_body_threw in Hb.
    destruct Hb as [[Hnone Hnext]|(next & cs' & -> & _ & _ & Hstream)].
    + split.
      * exists []. rewrite app_nil_r.
        destruct (get_next_part_frame _ _ _ _ Hnext) as [cs ->]. reflexivity.
      * intros ip Hip. congruence.
    + cbn. split; [eauto|]. intros ip Hip.
      destruct Hstream as [[Hsome _]|[Hnone _]]; congruence.
  - unfold upload_body, bind in Hb.
    destruct (inflight_part u) as [ip|] eqn:Hin.
    + exfalso. revert Hb. unfold modify, ret, InflightPart_upload, call. cbn.
      destruct (part_definitions u !! offset ip); [discriminate|].
      destruct (upload_part_bytes _ _ _ _) as [s' [rec|e]]; discriminate.
    + destruct (_get_next_part fuel u) as [u1 [p|e|]] eqn:Hnext.
      * exfalso. revert Hb. unfold modify, ret, InflightPart_upload, call. cbn.
        destruct (part_definitions u1 !! offset p); [discriminate|].
        destruct (upload_part_bytes _ _ _ _) as [s' [rec|e]]; discriminate.
      * discriminate.
      * injection Hb as <-. destruct (get_next_part_frame _ _ _ _ Hnext) as [cs ->].
        split; [exists []; rewrite app_nil_r; reflexivity|]. discriminate.
Qed.

Lemma upload_loop_sha1 fuel n u u' (o : outcome unit) :
  upload_loop fuel n u = (u', o) -> exists l, sha1 u' = sha1 u ++ l.
Proof.
  intros Hrun.
  refine (upload_loop_inv (fun v => exists l, sha1 v = sha1 u ++ l) fuel _
            n u u' o _ Hrun).
  - intros v v' ob [l Hl] Hb. apply upload_body_sha1 in Hb.
    destruct Hb as ([l' Hl'] & _). exists (l ++ l'). rewrite Hl', Hl, app_assoc.
    reflexivity.
  - exists []. rewrite app_nil_r. reflexivity.
Qed.

Lemma upload_and_commit_frame fuel u u' (o : outcome File) :
  upload_and_commit fuel u = (u', o) ->
  exists u1 o1,
    _upload fuel u = (u1, o1)
    /\ sha1 u' = sha1 u1 /\ part_array u' = part_array u1
    /\ (o = Diverged <-> o1 = Diverged).
Proof.
  unfold upload_and_commit, bind, gets, call.
  destruct (_upload fuel u) as [u1 [[]|e|]].
  - destruct (commit _ _ _) as [s' [f|e]]; intros [= <- <-];
      exists u1, (Done tt); cbn; repeat split; congruence.
  - intros [= <- <-]. exists u1, (Threw e). repeat split; congruence.
  - intros [= <- <-]. exists u1, Diverged. repeat split; congruence.
Qed.

(** X5. A pass was refused in [upload_part_bytes], so that its part stayed
    in flight; the session then lists fewer parts than [total_parts] and
    none at the offset in flight.  A [resume] that does not run out of fuel
    then hashes the chunk of that part again: the accumulator, which held
    the chunk once when the pass raised, now holds it twice in a row. *)
Theorem X5_resume_hashes_a_refused_part_again fuel fuel' v u e next s parts u' o :
  upload_body fuel v = (u, Threw e) ->
  inflight_part u = Some next ->
  is_aborted u = false ->
  get_parts (upload_session u) = (s, Returns parts) ->
  (forall p, p ∈ parts -> p_offset p <> offset next) ->
  Z.of_nat (length parts) < total_parts (upload_session u) ->
  resume fuel' u = (u', o) ->
  o <> Diverged ->
  sha1 u = sha1 v ++ [chunk next]
  /\ exists rest, sha1 u' = sha1 v ++ [chunk next; chunk next] ++ rest.
Proof.
  intros Hfail Hin Hab Hget Hnot Hfew Hres Ho.
  assert (Hsha_u : sha1 u = sha1 v ++ [chunk next]).
  { apply upload_body_threw in Hfail.
    destruct Hfail as [[Hnone Hnext]|(next' & cs' & Hu & _)].
    - exfalso. apply get_next_part_threw in Hnext.
      destruct Hnext as [(Hgone & -> & _)|(st & st' & k & _ & -> & _)].
      + congruence.
      + cbn in Hin. congruence.
    - rewrite Hu in Hin |- *. cbn in Hin |- *. congruence. }
  split; [exact Hsha_u|].
  rewrite (resume_unfold fuel' u s parts Hab Hget) in Hres.
  apply upload_and_commit_frame in Hres.
  destruct Hres as (u1 & o1 & Hup & Hsha' & _ & Hdiv).
  assert (Ho1 : o1 <> Diverged) by (intros E; apply Ho, Hdiv, E).
  destruct (get_parts_session _ _ _ Hget) as (Ht & _).
  set (r := reconciled s parts u) in *.
  assert (Hr : r = set_part_definitions (cache_all parts (part_definitions u))
                     (set_inflight_part (Some next)
                        (set_part_array (kept_upto (offset next) parts)
                           (set_upload_session s u)))).
  { unfold r, reconciled.
    rewrite (fold_reconcile_inflight parts _ next) by exact Hin.
    replace (existsb (fun p => p_offset p =? offset next) parts) with false.
    - reflexivity.
    - symmetry. apply not_true_is_false. intros Hex.
      apply existsb_offset in Hex. destruct Hex as (p & Hp & E).
      exact (Hnot p Hp E). }
  assert (Hlt : Z.of_nat (length (part_array r)) < total_parts (upload_session r)).
  { rewrite Hr. cbn. pose proof (kept_upto_length (offset next) parts). lia. }
  unfold _upload in Hup. destruct fuel' as [|n].
  { rewrite upload_loop_stall in Hup by exact Hlt. congruence. }
  rewrite upload_loop_pass in Hup by exact Hlt. unfold bind in Hup.
  destruct (upload_body (S n) r) as [r1 ob] eqn:Hb.
  apply upload_body_sha1 in Hb. destruct Hb as (_ & Hb).
  specialize (Hb next ltac:(rewrite Hr; reflexivity)).
  assert (Hr1 : sha1 r1 = sha1 v ++ [chunk next; chunk next]).
  { rewrite Hb, Hr. cbn. rewrite Hsha_u, <- app_assoc. reflexivity. }
  destruct ob as [[]|e'|].
  - apply upload_loop_sha1 in Hup. destruct Hup as [l Hl].
    exists l. rewrite Hsha', Hl, Hr1, <- app_assoc. reflexivity.
  - injection Hup as <- <-. exists []. rewrite Hsha', Hr1, app_nil_r. reflexivity.
  - injection Hup as <- <-. congruence.
Qed.
End Accumulator.

Lemma X5_witness :
  exists rest,
    sha1 (fst (resume 20 (fst (upload_body 20 after_first_pass))))
    = sha1 after_first_pass ++ [[x03; x04]; [x03; x04]] ++ rest.
Proof.
  pose proof (X5_resume_hashes_a_refused_part_again 20 20 after_first_pass
                (fst (upload_body 20 after_first_pass)) (SessionError 500)
                (mkInflightPart 2 [x03; x04] 5)
                (fst (get_parts (upload_session (fst (upload_body 20 after_first_pass)))))
                [mkPart 0 2 1]
                (fst (resume 20 (fst (upload_body 20 after_first_pass))))
                (snd (resume 20 (fst (upload_body 20 after_first_pass))))) as W.
  assert (H1 : upload_body 20 after_first_pass
               = (fst (upload_body 20 after_first_pass), Threw (SessionError 500)))
    by (vm_compute; reflexivity).
  assert (H2 : inflight_part (fst (upload_body 20 after_first_pass))
               = Some (mkInflightPart 2 [x03; x04] 5))
    by (vm_compute; reflexivity).
  assert (H3 : is_aborted (fst (upload_body 20 after_first_pass)) = false)
    by (vm_compute; reflexivity).
  assert (H4 : get_parts (upload_session (fst (upload_body 20 after_first_pass)))
               = (fst (get_parts (upload_session (fst (upload_body 20 after_first_pass)))),
                  Returns [mkPart 0 2 1]))
    by (vm_compute; reflexivity).
  assert (H5 : forall p, p ∈ [mkPart 0 2 1] ->
                 p_offset p <> offset (mkInflightPart 2 [x03; x04] 5)).
  { intros p Hp. apply list_elem_of_singleton in Hp. subst p. discriminate. }
  assert (H6 : Z.of_nat (length [mkPart 0 2 1])
               < total_parts (upload_session (fst (upload_body 20 after_first_pass))))
    by (vm_compute; reflexivity).
  assert (H7 : resume 20 (fst (upload_body 20 after_first_pass))
               = (fst (resume 20 (fst (upload_body 20 after_first_pass))),
                  snd (resume 20 (fst (upload_body 20 after_first_pass)))))
    by (vm_compute; reflexivity).
  assert (H8 : snd (resume 20 (fst (upload_body 20 after_first_pass))) <> Diverged)
    by (vm_compute; discriminate).
  destruct (W H1 H2 H3 H4 H5 H6 H7 H8) as (_ & Hrest).
  exact Hrest.
Defined.

(** ** Resuming after a lost reply, and the requests of a run *)

Section Recovery.
Context {R : Type} `{Remote R}.
Implicit Type u : ChunkedUploader R.

Lemma upload_loop_part_array fuel n u u' (o : outcome unit) :
  upload_loop fuel n u = (u', o) -> exists l, part_array u' = part_array u ++ l.
Proof.
  intros Hrun.
  refine (upload_loop_inv (fun v => exists l, part_array v = part_array u ++ l) fuel _
            n u u' o _ Hrun).
  - intros v v' ob [l Hl] Hb. destruct ob as [[]|e|].
    + apply upload_body_done in Hb.
      destruct Hb as (next & rec & s' & cs' & -> & _). cbn.
      exists (l ++ [rec]). rewrite Hl, app_assoc. reflexivity.
    + apply upload_body_threw in Hb.
      destruct Hb as [[_ Hnext]|(next & cs' & -> & _)].
      * destruct (get_next_part_frame _ _ _ _ Hnext) as [cs ->]. cbn. eauto.
      * cbn. eauto.
    + exists l. rewrite <- Hl.
      unfold upload_body, bind in Hb.
      destruct (inflight_part v) as [ip|].
      * exfalso. revert Hb. unfold modify, ret, InflightPart_upload, call. cbn.
        destruct (part_definitions v !! offset ip); [discriminate|].
        destruct (upload_part_bytes _ _ _ _) as [s' [rec|e]]; discriminate.
      * destruct (_get_next_part fuel v) as [u1 [p|e|]] eqn:Hnext.
        -- exfalso. revert Hb. unfold modify, ret, InflightPart_upload, call. cbn.
           destruct (part_definitions u1 !! offset p); [discriminate|].
           destruct (upload_part_bytes _ _ _ _) as [s' [rec|e]]; discriminate.
        -- discriminate.
        -- injection Hb as <-. destruct (get_next_part_frame _ _ _ _ Hnext) as [cs ->].
           reflexivity.
  - exists []. rewrite app_nil_r. reflexivity.
Qed.

(** X6. A part was left in flight and the session lists it (it was
    persisted, the reply was lost).  A [resume] that returns the file then
    does not hash that part again: it keeps the listed parts up to it, goes
    on with the chunk that follows in the stream, and hashes exactly the
    chunks of the parts still missing, once each and in order. *)
Theorem X6_resume_after_lost_reply_hashes_the_rest_once fuel u ip s parts st u' f :
  is_aborted u = false ->
  inflight_part u = Some ip ->
  content_stream u = Some st ->
  get_parts (upload_session u) = (s, Returns parts) ->
  ascending parts ->
  (exists p, p ∈ parts /\ p_offset p = offset ip) ->
  resume fuel u = (u', Done f) ->
  sha1 u' = sha1 u
            ++ chunks_of (Z.to_nat (part_size (upload_session u)))
                 (Z.to_nat (total_parts (upload_session u)
                            - Z.of_nat (length (longest_prefix_upto (offset ip) parts))))
                 (pending st)
  /\ exists rest, part_array u' = longest_prefix_upto (offset ip) parts ++ rest.
Proof.
  intros Hab Hin Hcs Hget Hasc Hlisted Hres.
  rewrite (resume_unfold fuel u s parts Hab Hget) in Hres.
  apply upload_and_commit_done in Hres.
  destruct Hres as (u1 & s' & Hup & _ & ->).
  cbn [sha1 part_array set_upload_session].
  destruct (get_parts_session _ _ _ Hget) as (Ht & Hp & _).
  set (r := reconciled s parts u) in *.
  assert (Hr : r = set_part_definitions (cache_all parts (part_definitions u))
                     (set_inflight_part None
                        (set_part_array (longest_prefix_upto (offset ip) parts)
                           (set_upload_session s u)))).
  { unfold r, reconciled.
    rewrite (fold_reconcile_inflight parts _ ip) by exact Hin.
    replace (existsb (fun p => p_offset p =? offset ip) parts) with true
      by (symmetry; apply existsb_offset; exact Hlisted).
    cbn. rewrite kept_upto_ascending by exact Hasc. reflexivity. }
  unfold _upload in Hup.
  destruct (upload_loop_walk fuel fuel r u1 st ltac:(rewrite Hr; reflexivity)
              ltac:(rewrite Hr; exact Hcs) Hup) as (Hsha & _).
  destruct (upload_loop_part_array _ _ _ _ _ Hup) as [rest Hrest].
  unfold passes_left in Hsha. rewrite Hr in Hsha, Hrest. cbn in Hsha, Hrest.
  rewrite Ht, Hp in Hsha. split; [exact Hsha | eauto].
Qed.

(** The requests of the common tail of [start] and [resume]: uploads, then
    at most one commit, which is sent only when the loop ended normally with
    at least [total_parts] records and which carries the digest and the
    list the engine holds. *)
Lemma upload_and_commit_calls fuel u :
  exists ups cm,
    journal (upload_session (fst (upload_and_commit fuel u)))
    = journal (upload_session u) ++ ups ++ cm
    /\ Forall is_upload ups
    /\ (cm = []
        \/ (cm = [CallCommit (sha1_digest (sha1 (fst (upload_and_commit fuel u))))
                    (part_array (fst (upload_and_commit fuel u)))]
            /\ total_parts (upload_session u)
               <= Z.of_nat (length (part_array (fst (upload_and_commit fuel u))))))
    /\ (forall f, snd (upload_and_commit fuel u) = Done f -> cm <> []).
Proof.
  unfold upload_and_commit, bind, gets, call, _upload.
  destruct (upload_loop fuel fuel u) as [u1 o1] eqn:Hloop.
  assert (Hups : exists ups, journal (upload_session u1) = journal (upload_session u) ++ ups
                             /\ Forall is_upload ups
                             /\ total_parts (upload_session u1) = total_parts (upload_session u)).
  { refine (upload_loop_inv
              (fun v => exists ups, journal (upload_session v) = journal (upload_session u) ++ ups
                                    /\ Forall is_upload ups
                                    /\ total_parts (upload_session v) = total_parts (upload_session u))
              fuel _ fuel u u1 o1 _ Hloop).
    - intros v v' ob (ups & Hj & Hall & Ht) Hb. apply upload_body_any in Hb.
      destruct Hb as (Ht' & _ & _ & _ & [Hsame|(c & k & t & Hnew & _)]).
      + exists ups. rewrite Hsame. repeat split; [exact Hj|exact Hall|congruence].
      + exists (ups ++ [CallUploadPartBytes c k t]).
        rewrite Hnew, Hj, app_assoc. repeat split; [|congruence].
        apply Forall_app. split; [exact Hall|]. constructor; [|constructor].
        exists k, c, t. reflexivity.
    - exists []. rewrite app_nil_r. repeat split. constructor. }
  destruct Hups as (ups & Hj & Hall & Ht).
  destruct o1 as [[]|e|].
  - destruct (upload_loop_inv_done (fun _ => True) fuel (fun _ _ _ _ _ => I)
                fuel u u1 I Hloop) as (_ & Hfull).
    destruct (commit _ _ _) as [s' a] eqn:Hc. apply commit_session in Hc.
    exists ups, [CallCommit (sha1_digest (sha1 u1)) (part_array u1)].
    destruct a; cbn [fst snd upload_session set_upload_session sha1 part_array];
      (split; [rewrite Hc, Hj, app_assoc; reflexivity|]);
      (split; [exact Hall|]);
      (split; [right; split; [reflexivity|lia]|]); discriminate.
  - exists ups, []. cbn. rewrite app_nil_r.
    repeat split; [exact Hj|exact Hall|left; reflexivity|discriminate].
  - exists ups, []. cbn. rewrite app_nil_r.
    repeat split; [exact Hj|exact Hall|left; reflexivity|discriminate].
Qed.

(** X7. The requests of [start], however it ends: uploads only, then at
    most one [commit] as the last request.  The commit is sent only when
    the loop ended normally with at least [total_parts] committed records,
    it carries the digest of the accumulator and the committed list as the
    engine holds them, and a [start] that returns a file has sent it;
    [start] never lists parts and never aborts the session. *)
Theorem X7_start_sends_uploads_then_at_most_one_commit fuel u :
  exists ups cm,
    journal (upload_session (fst (start fuel u)))
    = journal (upload_session u) ++ ups ++ cm
    /\ Forall is_upload ups
    /\ (cm = []
        \/ (cm = [CallCommit (sha1_digest (sha1 (fst (start fuel u))))
                    (part_array (fst (start fuel u)))]
            /\ total_parts (upload_session u)
               <= Z.of_nat (length (part_array (fst (start fuel u))))))
    /\ (forall f, snd (start fuel u) = Done f -> cm <> []).
Proof.
  destruct (is_aborted u) eqn:Hab.
  - rewrite start_aborted by exact Hab. exists [], []. cbn. rewrite app_nil_r.
    repeat split; [constructor|left; reflexivity|discriminate].
  - rewrite start_unfold by exact Hab. apply upload_and_commit_calls.
Qed.
End Recovery.

Lemma X6_witness :
  sha1 (fst (resume 20 reply_lost)) = sha1 reply_lost ++ [[x05]].
Proof.
  pose proof (X6_resume_after_lost_reply_hashes_the_rest_once 20 reply_lost
                (mkInflightPart 2 [x03; x04] 5)
                (fst (get_parts (upload_session reply_lost)))
                [mkPart 0 2 1; mkPart 2 2 2]
                (default (steady []) (content_stream reply_lost))
                (fst (resume 20 reply_lost))
                (returned (snd (resume 20 reply_lost)))) as W.
  assert (H1 : is_aborted reply_lost = false) by (vm_compute; reflexivity).
  assert (H2 : inflight_part reply_lost = Some (mkInflightPart 2 [x03; x04] 5))
    by (vm_compute; reflexivity).
  assert (H3 : content_stream reply_lost
               = Some (default (steady []) (content_stream reply_lost)))
    by (vm_compute; reflexivity).
  assert (H4 : get_parts (upload_session reply_lost)
               = (fst (get_parts (upload_session reply_lost)),
                  Returns [mkPart 0 2 1; mkPart 2 2 2]))
    by (vm_compute; reflexivity).
  assert (H5 : ascending [mkPart 0 2 1; mkPart 2 2 2]).
  { repeat constructor. }
  assert (H6 : exists p, p ∈ [mkPart 0 2 1; mkPart 2 2 2]
                         /\ p_offset p = offset (mkInflightPart 2 [x03; x04] 5)).
  { exists (mkPart 2 2 2). split; [|reflexivity].
    apply list_elem_of_further, list_elem_of_here. }
  assert (H7 : resume 20 reply_lost
               = (fst (resume 20 reply_lost),
                  Done (returned (snd (resume 20 reply_lost)))))
    by (vm_compute; reflexivity).
  destruct (W H1 H2 H3 H4 H5 H6 H7) as (Hsha & _).
  exact Hsha.
Defined.

(** The resumed run after the lost reply sends the digest of the file and
    the session accepts the commit. *)
Example reply_lost_run :
  snd (start 20 (fresh [Serve; LoseReply])) = Threw (SessionError 504)
  /\ sha1 (fst (resume 20 reply_lost)) = [[x01; x02]; [x03; x04]; [x05]]
  /\ snd (resume 20 reply_lost)
     = Done (mkFile (SHA1.hash content5) [mkPart 0 2 1; mkPart 2 2 2; mkPart 4 1 3]).
Proof. vm_compute. repeat split. Qed.

Lemma planned_uploads_all_cached cached ps fs i chunks :
  (forall j, (i <= j < i + length chunks)%nat -> cached (Z.of_nat j * ps) = true) ->
  planned_uploads cached ps fs i chunks = [].
Proof.
  revert i. induction chunks as [|c rest IH]; intros i Hall; [reflexivity|].
  cbn [planned_uploads]. rewrite (Hall i) by (cbn [length]; lia).
  apply IH. intros j Hj. apply Hall. cbn [length]. lia.
Qed.

Lemma chunks_of_length size n content : length (chunks_of size n content) = n.
Proof.
  revert content. induction n as [|n IH]; intros content; cbn; [reflexivity|].
  rewrite IH. reflexivity.
Qed.

Lemma chunks_of_nil size n : concat (chunks_of size n []) = [].
Proof. rewrite chunks_of_concat. apply take_nil. Qed.

Section Retry.
Context {R : Type} `{Remote R}.
Implicit Type u : ChunkedUploader R.

Lemma resume_idle_length fuel u s parts u' f :
  is_aborted u = false ->
  inflight_part u = None ->
  get_parts (upload_session u) = (s, Returns parts) ->
  resume fuel u = (u', Done f) ->
  length (part_array u') = Z.to_nat (total_parts (upload_session u)).
Proof.
  intros Hab Hin Hget Hres.
  rewrite (resume_unfold fuel u s parts Hab Hget) in Hres.
  apply upload_and_commit_done in Hres.
  destruct Hres as (u1 & s' & Hup & _ & ->).
  destruct (get_parts_session _ _ _ Hget) as (Ht & _).
  unfold _upload in Hup. apply upload_loop_count in Hup.
  destruct Hup as (_ & Hlen & _).
  unfold passes_left, reconciled in Hlen.
  rewrite fold_reconcile_idle in Hlen by exact Hin.
  cbn in Hlen |- *. rewrite Hlen, Ht. f_equal. lia.
Qed.

(** X8. With no part in flight and every part offset listed by the session
    or cached by the engine, a [resume] that returns the file has sent
    nothing after the listing but the commit: no part is uploaded again.
    The committed list it sends has [total_parts] records; and when the
    stream was at its end already, the digest sent is the digest the engine
    held before. *)
Theorem X8_resume_with_every_part_cached_only_commits fuel u s parts st u' f :
  is_aborted u = false ->
  inflight_part u = None ->
  content_stream u = Some st ->
  part_size (upload_session u) <> 0 ->
  get_parts (upload_session u) = (s, Returns parts) ->
  (forall i, (i < Z.to_nat (total_parts (upload_session u)))%nat ->
     in_cache (cache_all parts (part_definitions u))
       (Z.of_nat i * part_size (upload_session u)) = true) ->
  resume fuel u = (u', Done f) ->
  journal (upload_session u')
  = journal s ++ [CallCommit (sha1_digest (sha1 u')) (part_array u')]
  /\ length (part_array u') = Z.to_nat (total_parts (upload_session u))
  /\ (pending st = [] -> sha1_digest (sha1 u') = sha1_digest (sha1 u)).
Proof.
  intros Hab Hin Hcs Hps Hget Hall Hres.
  destruct (resume_idle_run fuel u s parts st u' f Hab Hin Hcs Hps Hget Hres)
    as (Hsha & Hj).
  rewrite planned_uploads_all_cached in Hj.
  2:{ intros j Hj'. apply Hall. rewrite chunks_of_length in Hj'. lia. }
  split; [exact Hj|]. split.
  - exact (resume_idle_length fuel u s parts u' f Hab Hin Hget Hres).
  - intros Hend. unfold sha1_digest. rewrite Hsha, Hend, concat_app, chunks_of_nil.
    rewrite app_nil_r. reflexivity.
Qed.
End Retry.

Lemma X8_witness :
  journal (upload_session (fst (resume 20 all_there)))
  = [CallGetParts;
     CallCommit (sha1_digest (sha1 (fst (resume 20 all_there))))
       (part_array (fst (resume 20 all_there)))]
  /\ length (part_array (fst (resume 20 all_there))) = 3%nat.
Proof.
  pose proof (X8_resume_with_every_part_cached_only_commits 20 all_there
                (fst (get_parts (upload_session all_there)))
                [mkPart 0 2 1; mkPart 2 2 2; mkPart 4 1 3]
                (steady content5) (fst (resume 20 all_there))
                (returned (snd (resume 20 all_there)))) as W.
  assert (H1 : is_aborted all_there = false) by (vm_compute; reflexivity).
  assert (H2 : inflight_part all_there = None) by (vm_compute; reflexivity).
  assert (H3 : content_stream all_there = Some (steady content5))
    by (vm_compute; reflexivity).
  assert (H4 : part_size (upload_session all_there) <> 0)
    by (vm_compute; discriminate).
  assert (H5 : get_parts (upload_session all_there)
               = (fst (get_parts (upload_session all_there)),
                  Returns [mkPart 0 2 1; mkPart 2 2 2; mkPart 4 1 3]))
    by (vm_compute; reflexivity).
  assert (H6 : forall i, (i < Z.to_nat (total_parts (upload_session all_there)))%nat ->
                 in_cache (cache_all [mkPart 0 2 1; mkPart 2 2 2; mkPart 4 1 3]
                             (part_definitions all_there))
                   (Z.of_nat i * part_size (upload_session all_there)) = true).
  { intros i Hi. change (i < 3)%nat in Hi.
    destruct i as [|[|[|i]]]; [vm_compute; reflexivity..|lia]. }
  assert (H7 : resume 20 all_there
               = (fst (resume 20 all_there),
                  Done (returned (snd (resume 20 all_there)))))
    by (vm_compute; reflexivity).
  destruct (W H1 H2 H3 H4 H5 H6 H7) as (Hj & Hlen & _).
  split; [exact Hj | exact Hlen].
Defined.

(** ** The journal is only written *)

Section Journal.
Context {R : Type} `{Remote R}.
Implicit Type u : ChunkedUploader R.

Lemma call_prefix {A} (op : UploadSession R -> UploadSession R * reply A) j u :
  (forall s, op (session_with_journal (j ++ journal s) s)
             = (session_with_journal (j ++ journal (fst (op s))) (fst (op s)),
                snd (op s))) ->
  call op (prefix_journal j u) = lift_journal j (call op u).
Proof.
  intros Hop. unfold call, lift_journal, prefix_journal, with_journal. cbn.
  rewrite Hop. destruct (op (upload_session u)) as [s' [a|e]]; reflexivity.
Qed.

Lemma upload_part_bytes_prefix j bs o t (s : UploadSession R) :
  upload_part_bytes (session_with_journal (j ++ journal s) s) bs o t
  = (session_with_journal (j ++ journal (fst (upload_part_bytes s bs o t)))
       (fst (upload_part_bytes s bs o t)),
     snd (upload_part_bytes s bs o t)).
Proof.
  unfold upload_part_bytes, session_with_journal, request. cbn.
  destruct (remote_upload_part_bytes _ _ _ _). cbn. rewrite app_assoc. reflexivity.
Qed.

Lemma commit_prefix j d parts (s : UploadSession R) :
  commit (session_with_journal (j ++ journal s) s) d parts
  = (session_with_journal (j ++ journal (fst (commit s d parts)))
       (fst (commit s d parts)),
     snd (commit s d parts)).
Proof.
  unfold commit, session_with_journal, request. cbn.
  destruct (remote_commit _ _ _). cbn. rewrite app_assoc. reflexivity.
Qed.

Lemma get_next_part_prefix fuel j u :
  _get_next_part fuel (prefix_journal j u) = lift_journal j (_get_next_part fuel u).
Proof.
  unfold _get_next_part, lift_journal, prefix_journal, with_journal. cbn.
  destruct (content_stream u) as [st|]; [|reflexivity].
  destruct (read_chunk _ _ _ _ _) as [st' [c|e|]]; reflexivity.
Qed.

Lemma upload_body_prefix fuel j u :
  upload_body fuel (prefix_journal j u) = lift_journal j (upload_body fuel u).
Proof.
  unfold upload_body. unfold bind at 1 7.
  assert (Hrest : forall next v,
    (modify (set_inflight_part (Some next)) ;;;
     modify (fun u => set_sha1 (sha1_update (sha1 u) (chunk next)) u) ;;;
     uploaded_part <- (fun u => match part_definitions u !! offset next with
                                | Some p => ret p u
                                | None => InflightPart_upload next u
                                end) ;;
     modify (set_inflight_part None) ;;;
     modify (fun u => set_part_array (part_array u ++ [uploaded_part]) u) ;;;
     modify (fun u => set_part_definitions
                        (<[offset next := uploaded_part]> (part_definitions u)) u))%upl
      (prefix_journal j v)
    = lift_journal j
        ((modify (set_inflight_part (Some next)) ;;;
          modify (fun u => set_sha1 (sha1_update (sha1 u) (chunk next)) u) ;;;
          uploaded_part <- (fun u => match part_definitions u !! offset next with
                                     | Some p => ret p u
                                     | None => InflightPart_upload next u
                                     end) ;;
          modify (set_inflight_part None) ;;;
          modify (fun u => set_part_array (part_array u ++ [uploaded_part]) u) ;;;
          modify (fun u => set_part_definitions
                             (<[offset next := uploaded_part]> (part_definitions u)) u))%upl
           v)).
  { intros next v. unfold bind, modify, ret, InflightPart_upload, call, lift_journal,
      prefix_journal, with_journal. cbn.
    destruct (part_definitions v !! offset next) as [rec|]; [reflexivity|].
    rewrite upload_part_bytes_prefix.
    destruct (upload_part_bytes (upload_session v) _ _ _) as [s' [rec|e]]; reflexivity. }
  change (inflight_part (prefix_journal j u)) with (inflight_part u).
  destruct (inflight_part u) as [ip|].
  - cbn [ret]. apply Hrest.
  - rewrite get_next_part_prefix. unfold lift_journal at 1.
    destruct (_get_next_part fuel u) as [u1 [p|e|]]; cbn [fst snd];
      [apply Hrest|reflexivity|reflexivity].
Qed.

Lemma upload_loop_prefix fuel n j u :
  upload_loop fuel n (prefix_journal j u) = lift_journal j (upload_loop fuel n u).
Proof.
  revert u. induction n as [|n IH]; intros u; cbn [upload_loop];
    change (part_array (prefix_journal j u)) with (part_array u);
    change (total_parts (upload_session (prefix_journal j u)))
      with (total_parts (upload_session u));
    destruct (_ <? _); try reflexivity.
  unfold bind. rewrite upload_body_prefix. unfold lift_journal at 1.
  destruct (upload_body fuel u) as [u1 [[]|e|]]; cbn [fst snd];
    [apply IH|reflexivity|reflexivity].
Qed.

Lemma start_prefix fuel j u :
  start fuel (prefix_journal j u) = lift_journal j (start fuel u).
Proof.
  unfold start, bind, gets, raise, _upload.
  change (is_aborted (prefix_journal j u)) with (is_aborted u).
  destruct (is_aborted u); [reflexivity|].
  rewrite upload_loop_prefix. unfold lift_journal at 1.
  destruct (upload_loop fuel fuel u) as [u1 [[]|e|]]; cbn [fst snd];
    [|reflexivity|reflexivity].
  change (sha1 (prefix_journal j u1)) with (sha1 u1).
  change (part_array (prefix_journal j u1)) with (part_array u1).
  unfold call, lift_journal, prefix_journal, with_journal. cbn.
  rewrite commit_prefix.
  destruct (commit (upload_session u1) _ _) as [s' [f|e]]; reflexivity.
Qed.

Lemma with_journal_prefix j u : with_journal j u = prefix_journal j (with_journal [] u).
Proof.
  unfold prefix_journal, with_journal, session_with_journal. cbn.
  rewrite app_nil_r. reflexivity.
Qed.

Lemma with_journal_own u : with_journal (journal (upload_session u)) u = u.
Proof. destruct u as [[tp ps r j] cs fs pa sh pd ip ab]. reflexivity. Qed.

(** X22. [resume] while nothing is uploaded: no part in flight, no part
    committed, and a listing that is empty and leaves the remote end as it
    was.  [resume] then gives the answer [start] gives and ends in the same
    state of engine and remote end; the requests it sends are the listing
    followed by exactly the requests that [start] sends. *)
Theorem X22_resume_with_nothing_uploaded_sends_what_start_sends fuel u :
  is_aborted u = false ->
  inflight_part u = None ->
  part_array u = [] ->
  remote_get_parts (remote (upload_session u))
  = (remote (upload_session u), Returns []) ->
  snd (resume fuel u) = snd (start fuel u)
  /\ with_journal [] (fst (resume fuel u)) = with_journal [] (fst (start fuel u))
  /\ exists calls,
       journal (upload_session (fst (start fuel u)))
       = journal (upload_session u) ++ calls
       /\ journal (upload_session (fst (resume fuel u)))
          = journal (upload_session u) ++ CallGetParts :: calls.
Proof.
  intros Hab Hin Hparts Hget.
  set (j0 := journal (upload_session u)).
  set (u0 := with_journal [] u).
  assert (Hu : u = prefix_journal j0 u0).
  { unfold u0, j0. rewrite <- with_journal_prefix. symmetry. apply with_journal_own. }
  assert (Hres : resume fuel u = start fuel (prefix_journal (j0 ++ [CallGetParts]) u0)).
  { rewrite (resume_unfold fuel u (request CallGetParts (remote (upload_session u))
                                     (upload_session u)) []).
    - rewrite start_unfold by (unfold u0; exact Hab).
      f_equal. unfold u0, j0, reconciled, prefix_journal, with_journal,
        session_with_journal, request.
      destruct u as [[tp ps r j] cs fs pa sh pd ip ab]. cbn in *. subst.
      rewrite app_nil_r. reflexivity.
    - exact Hab.
    - unfold get_parts. rewrite Hget. reflexivity. }
  assert (Hst : start fuel u = start fuel (prefix_journal j0 u0)) by (rewrite <- Hu; reflexivity).
  rewrite Hres, Hst, !start_prefix. unfold lift_journal. cbn [fst snd].
  split; [reflexivity|]. split.
  - unfold with_journal, prefix_journal, with_journal, session_with_journal. cbn.
    reflexivity.
  - exists (journal (upload_session (fst (start fuel u0)))).
    unfold prefix_journal, with_journal, session_with_journal. cbn.
    rewrite <- app_assoc. auto.
Qed.
End Journal.

Lemma X22_witness :
  snd (resume 20 (fresh [])) = snd (start 20 (fresh []))
  /\ journal (upload_session (fst (resume 20 (fresh []))))
     = CallGetParts :: journal (upload_session (fst (start 20 (fresh [])))).
Proof.
  pose proof (X22_resume_with_nothing_uploaded_sends_what_start_sends 20 (fresh [])) as W.
  assert (H1 : is_aborted (fresh []) = false) by reflexivity.
  assert (H2 : inflight_part (fresh []) = None) by reflexivity.
  assert (H3 : part_array (fresh []) = []) by reflexivity.
  assert (H4 : remote_get_parts (remote (upload_session (fresh [])))
               = (remote (upload_session (fresh [])), Returns []))
    by reflexivity.
  destruct (W H1 H2 H3 H4) as (Hans & _ & calls & Hs & Hr).
  split; [exact Hans|]. rewrite Hr, Hs. reflexivity.
Defined.

(** * Properties of the LRU cache *)

Section LRUFacts.
Context {K V : Type} `{EqDecision K}.
Implicit Type d : LRUCache.OrderedDict K V.
Implicit Type c : LRUCache.t K V.
Import LRUCache.

Lemma od_pop_get key d :
  (fst <$> od_pop key d) = od_get key d.
Proof.
  induction d as [|[k v] rest IH]; cbn; [reflexivity|].
  destruct (decide (k = key)); [reflexivity|].
  rewrite <- IH. destruct (od_pop key rest) as [[v' rest']|]; reflexivity.
Qed.

Lemma od_get_None key d : od_get key d = None <-> key ∉ map fst d.
Proof.
  induction d as [|[k v] rest IH]; cbn.
  - split; [intros _; apply not_elem_of_nil|reflexivity].
  - rewrite not_elem_of_cons. destruct (decide (k = key)) as [->|Hne].
    + split; [discriminate|]. intros [Hk _]. congruence.
    + rewrite IH. split; [auto|]. intros [_ Hrest]. exact Hrest.
Qed.

(** What [pop] takes out: the first item under the key. *)
Lemma od_pop_Some key d v d' :
  od_pop key d = Some (v, d') ->
  exists l1 l2, d = l1 ++ (key, v) :: l2 /\ d' = l1 ++ l2 /\ key ∉ map fst l1.
Proof.
  revert v d'. induction d as [|[k w] rest IH]; intros v d'; cbn; [discriminate|].
  destruct (decide (k = key)) as [->|Hne].
  - intros [= <- <-]. exists [], rest. repeat split. apply not_elem_of_nil.
  - destruct (od_pop key rest) as [[v' rest']|] eqn:Hpop; [|discriminate].
    intros [= <- <-]. destruct (IH v' rest' eq_refl) as (l1 & l2 & -> & -> & Hl1).
    exists ((k, w) :: l1), l2. repeat split. cbn. rewrite not_elem_of_cons. auto.
Qed.

Lemma od_pop_None key d : od_pop key d = None <-> key ∉ map fst d.
Proof.
  rewrite <- od_get_None, <- od_pop_get.
  destruct (od_pop key d); cbn; split; congruence.
Qed.

Lemma od_setitem_fresh key value d :
  key ∉ map fst d -> od_setitem key value d = d ++ [(key, value)].
Proof.
  induction d as [|[k v] rest IH]; cbn; [reflexivity|].
  rewrite not_elem_of_cons. intros [Hk Hrest].
  destruct (decide (k = key)); [congruence|]. rewrite IH by exact Hrest. reflexivity.
Qed.

Lemma od_get_setitem key value d : od_get key (od_setitem key value d) = Some value.
Proof.
  induction d as [|[k v] rest IH]; cbn.
  - destruct (decide (key = key)); congruence.
  - destruct (decide (k = key)) as [->|Hne]; cbn.
    + destruct (decide (key = key)); congruence.
    + destruct (decide (k = key)); [congruence|exact IH].
Qed.

Lemma od_get_setitem_ne key key' value d :
  key' <> key -> od_get key (od_setitem key' value d) = od_get key d.
Proof.
  intros Hne. induction d as [|[k v] rest IH]; cbn.
  - destruct (decide (key' = key)); congruence.
  - destruct (decide (k = key')) as [->|Hk]; cbn.
    + destruct (decide (key' = key)); congruence.
    + destruct (decide (k = key)); [reflexivity|exact IH].
Qed.

Lemma od_get_app_fresh key (l1 l2 : OrderedDict K V) :
  key ∉ map fst l1 -> od_get key (l1 ++ l2) = od_get key l2.
Proof.
  induction l1 as [|[k v] rest IH]; cbn; [reflexivity|].
  rewrite not_elem_of_cons. intros [Hk Hrest].
  destruct (decide (k = key)); [congruence|]. apply IH. exact Hrest.
Qed.

Lemma od_get_pop_ne key key' d v d' :
  key' <> key -> od_pop key' d = Some (v, d') -> od_get key d' = od_get key d.
Proof.
  intros Hne. revert v d'. induction d as [|[k w] rest IH]; intros v d'; cbn;
    [discriminate|].
  destruct (decide (k = key')) as [->|Hk].
  - intros [= <- <-]. destruct (decide (key' = key)); congruence.
  - destruct (od_pop key' rest) as [[v' rest']|]; [|discriminate].
    intros [= <- <-]. cbn. destruct (decide (k = key)); [reflexivity|].
    eapply IH. reflexivity.
Qed.

Lemma get_answer key c :
  snd (get key c) = match od_get key (cache c) with
                    | Some v => Ok v
                    | None => KeyError
                    end.
Proof.
  unfold get. rewrite <- od_pop_get.
  destruct (od_pop key (cache c)) as [[v d]|]; reflexivity.
Qed.

Lemma keys_app_snoc (l : list (K * V)) key value :
  map fst (l ++ [(key, value)]) = map fst l ++ [key].
Proof. rewrite map_app. reflexivity. Qed.

Lemma NoDup_snoc_fresh (l : list K) key :
  NoDup l -> key ∉ l -> NoDup (l ++ [key]).
Proof.
  intros Hl Hk. apply NoDup_app. split; [exact Hl|]. split.
  - intros x Hx Hx'. apply list_elem_of_singleton in Hx'. congruence.
  - apply NoDup_singleton.
Qed.
End LRUFacts.

Section LRUTheorems.
Context {K V : Type} `{EqDecision K}.
Implicit Type d : LRUCache.OrderedDict K V.
Implicit Type c : LRUCache.t K V.
Import LRUCache.

(** Where [pop] finds the key, in a dict that has no key twice: the item
    is taken out and the key is in the rest no more. *)
Lemma od_pop_NoDup key d v d' :
  NoDup (map fst d) -> od_pop key d = Some (v, d') ->
  (key ∉ map fst d') /\ NoDup (map fst d') /\ length d = S (length d').
Proof.
  intros Hnd Hpop. apply od_pop_Some in Hpop.
  destruct Hpop as (l1 & l2 & -> & -> & Hl1).
  rewrite map_app in Hnd |- *. cbn in Hnd.
  apply NoDup_app in Hnd. destruct Hnd as (Hn1 & Hdisj & Hn2).
  apply NoDup_cons in Hn2. destruct Hn2 as [Hk2 Hn2].
  split; [|split].
  - rewrite elem_of_app. tauto.
  - apply NoDup_app. split; [exact Hn1|]. split; [|exact Hn2].
    intros x Hx Hx2. apply (Hdisj x Hx). right. exact Hx2.
  - rewrite !length_app. cbn. lia.
Qed.

Lemma get_well_formed key c : well_formed c -> well_formed (fst (get key c)).
Proof.
  intros [Hnd Hlen]. unfold get.
  destruct (od_pop key (cache c)) as [[v d']|] eqn:Hpop; [|split; assumption].
  destruct (od_pop_NoDup key _ v d' Hnd Hpop) as (Hfresh & Hnd' & Hl).
  unfold well_formed, keys. cbn. rewrite od_setitem_fresh by exact Hfresh.
  rewrite keys_app_snoc, length_app. cbn. split.
  - apply NoDup_snoc_fresh; assumption.
  - lia.
Qed.

Lemma set_well_formed key value c :
  well_formed c -> well_formed (fst (set key value c)).
Proof.
  destruct c as [cap d]. unfold well_formed, keys, set. cbn [cache capacity].
  intros [Hnd Hlen].
  destruct (od_pop key d) as [[v d']|] eqn:Hpop.
  - destruct (od_pop_NoDup key _ v d' Hnd Hpop) as (Hfresh & Hnd' & Hl).
    cbn. rewrite od_setitem_fresh by exact Hfresh.
    rewrite keys_app_snoc, length_app. cbn. split.
    + apply NoDup_snoc_fresh; assumption.
    + lia.
  - apply od_pop_None in Hpop.
    destruct (Z.geb_spec (Z.of_nat (length d)) cap) as [Hfull|Hroom].
    + destruct d as [|item rest]; cbn.
      * split; assumption.
      * cbn in Hpop, Hnd, Hlen. apply not_elem_of_cons in Hpop.
        apply NoDup_cons in Hnd. destruct Hpop as [_ Hrest]. destruct Hnd as [_ Hnd'].
        rewrite od_setitem_fresh by exact Hrest.
        rewrite keys_app_snoc, length_app. cbn. split.
        -- apply NoDup_snoc_fresh; assumption.
        -- lia.
    + cbn. rewrite od_setitem_fresh by exact Hpop.
      rewrite keys_app_snoc, length_app. cbn. split.
      * apply NoDup_snoc_fresh; assumption.
      * lia.
Qed.

Lemma od_pop_middle key v (l1 l2 : OrderedDict K V) :
  key ∉ map fst l1 -> od_pop key (l1 ++ (key, v) :: l2) = Some (v, l1 ++ l2).
Proof.
  induction l1 as [|[k w] l1 IH]; cbn.
  - intros _. destruct (decide (key = key)); congruence.
  - rewrite not_elem_of_cons. intros [Hk Hl1].
    destruct (decide (k = key)); [congruence|]. rewrite IH by exact Hl1. reflexivity.
Qed.

(** X9. A cache made with a capacity that is not negative holds, after
    any sequence of [get] and [set] calls, no key twice and never more items
    than its capacity. *)
Theorem X9_lru_cache_stays_within_capacity (ops : list (op K V)) (cap : Z) :
  0 <= cap ->
  NoDup (keys (run ops (init cap)))
  /\ Z.of_nat (length (cache (run ops (init cap)))) <= cap
  /\ capacity (run ops (init cap)) = cap.
Proof.
  intros Hcap.
  assert (Hgen : forall c, well_formed c ->
            well_formed (run ops c) /\ capacity (run ops c) = capacity c).
  { induction ops as [|o ops IH]; intros c Hc; [split; [exact Hc|reflexivity]|].
    cbn [run fold_left]. change (fold_left step ops (step c o)) with (run ops (step c o)).
    assert (Hstep : well_formed (step c o) /\ capacity (step c o) = capacity c).
    { destruct o as [key|key value]; cbn [step].
      - split; [apply get_well_formed; exact Hc|].
        unfold get. destruct (od_pop key (cache c)) as [[v d']|]; reflexivity.
      - split; [apply set_well_formed; exact Hc|].
        unfold set. destruct (od_pop key (cache c)) as [[v d']|]; [reflexivity|].
        destruct (_ >=? _); [|reflexivity].
        destruct (od_popitem_first (cache c)) as [[item d']|]; reflexivity. }
    destruct Hstep as [Hwf Hcapacity].
    destruct (IH _ Hwf) as [Hwf' Hcap']. split; [exact Hwf'|congruence]. }
  destruct (Hgen (init cap)) as [[Hnd Hlen] Hcapacity].
  - split; [apply NoDup_nil_2|cbn; lia].
  - cbn in Hcapacity. rewrite Hcapacity in Hlen. auto.
Qed.

(** X10. In a cache of positive capacity [set] never raises, and a [get]
    of the key right after it returns the value that was set. *)
Theorem X10_lru_get_after_set_returns_the_value key value c :
  0 < capacity c ->
  snd (set key value c) = Ok tt
  /\ snd (get key (fst (set key value c))) = Ok value.
Proof.
  intros Hcap. rewrite get_answer. unfold set.
  destruct (od_pop key (cache c)) as [[v d']|] eqn:Hpop.
  - cbn. rewrite od_get_setitem. auto.
  - destruct (Z.geb_spec (Z.of_nat (length (cache c))) (capacity c)) as [Hfull|Hroom].
    + destruct (cache c) as [|item rest] eqn:Hc; [cbn in Hfull; lia|].
      cbn. rewrite od_get_setitem. auto.
    + cbn. rewrite od_get_setitem. auto.
Qed.

(** X11. [set] of a key that is not in the cache puts the item at the end.
    While there is room nothing else changes; in a full cache the oldest
    item, the first of the dict, is dropped and no other. *)
Theorem X11_lru_set_of_a_new_key_evicts_the_oldest key value c :
  key ∉ keys c ->
  (Z.of_nat (length (cache c)) < capacity c ->
     cache (fst (set key value c)) = cache c ++ [(key, value)])
  /\ (forall item rest,
        capacity c <= Z.of_nat (length (cache c)) ->
        cache c = item :: rest ->
        cache (fst (set key value c)) = rest ++ [(key, value)]).
Proof.
  intros Hnew. unfold keys in Hnew. pose proof Hnew as Hpop.
  apply od_pop_None in Hpop. unfold set. rewrite Hpop. split.
  - intros Hroom.
    destruct (Z.geb_spec (Z.of_nat (length (cache c))) (capacity c)); [lia|].
    cbn. apply od_setitem_fresh. exact Hnew.
  - intros item rest Hfull Hc.
    destruct (Z.geb_spec (Z.of_nat (length (cache c))) (capacity c)); [|lia].
    rewrite Hc in Hnew |- *. cbn. apply od_setitem_fresh.
    cbn in Hnew. apply not_elem_of_cons in Hnew. tauto.
Qed.

(** X12. On a key that is in the cache, [get] returns its value and [set]
    replaces it, and both move the item to the end of the dict, the most
    recently used place; the other items keep their order and none is
    dropped, however full the cache is. *)
Theorem X12_lru_hit_moves_the_item_to_the_end key old value c l1 l2 :
  NoDup (keys c) ->
  cache c = l1 ++ (key, old) :: l2 ->
  get key c = (mk (capacity c) (l1 ++ l2 ++ [(key, old)]), Ok old)
  /\ set key value c = (mk (capacity c) (l1 ++ l2 ++ [(key, value)]), Ok tt).
Proof.
  intros Hnd Hc. unfold keys in Hnd.
  assert (Hl1 : key ∉ map fst l1).
  { rewrite Hc, map_app in Hnd. cbn in Hnd.
    apply NoDup_app in Hnd. destruct Hnd as (_ & Hdisj & _).
    intros Hin. apply (Hdisj key Hin). left. }
  assert (Hpop : od_pop key (cache c) = Some (old, l1 ++ l2))
    by (rewrite Hc; apply od_pop_middle; exact Hl1).
  assert (Hfresh : key ∉ map fst (l1 ++ l2)).
  { rewrite Hc in Hnd. destruct (od_pop_NoDup key (l1 ++ (key, old) :: l2) old (l1 ++ l2))
      as (Hf & _); [exact Hnd|rewrite <- Hc; exact Hpop|exact Hf]. }
  unfold get, set. rewrite Hpop.
  rewrite !od_setitem_fresh by exact Hfresh. rewrite <- !app_assoc. auto.
Qed.

(** X13. What was just read is not the next to go: in a cache of capacity
    two or more that holds no key twice, after a [get] that returned a
    value for a key, a [set] of any other key leaves that key in the cache
    with that value. *)
Theorem X13_lru_get_protects_from_the_next_eviction key key' value' v c :
  NoDup (keys c) ->
  2 <= capacity c ->
  key' <> key ->
  snd (get key c) = Ok v ->
  snd (get key (fst (set key' value' (fst (get key c))))) = Ok v.
Proof.
  intros Hnd Hcap Hne Hhit. rewrite get_answer.
  unfold get in Hhit |- *.
  destruct (od_pop key (cache c)) as [[w d']|] eqn:Hpop; [|discriminate].
  cbn in Hhit. injection Hhit as ->.
  destruct (od_pop_NoDup key _ v d' Hnd Hpop) as (Hfresh & _ & Hl).
  cbn [fst]. unfold set. cbn [cache capacity].
  rewrite od_setitem_fresh by exact Hfresh.
  assert (Hget : od_get key (d' ++ [(key, v)]) = Some v).
  { rewrite od_get_app_fresh by exact Hfresh. cbn.
    destruct (decide (key = key)); congruence. }
  destruct (od_pop key' (d' ++ [(key, v)])) as [[w d'']|] eqn:Hpop'.
  - cbn. rewrite od_get_setitem_ne by exact Hne.
    rewrite (od_get_pop_ne key key' _ w d'' Hne Hpop'), Hget. reflexivity.
  - destruct (Z.geb_spec (Z.of_nat (length (d' ++ [(key, v)]))) (capacity c))
      as [Hfull|Hroom].
    + destruct d' as [|[k0 w0] rest].
      * cbn in Hfull. lia.
      * cbn. rewrite od_get_setitem_ne by exact Hne.
        cbn in Hget, Hfresh. apply not_elem_of_cons in Hfresh.
        destruct (decide (k0 = key)); [destruct Hfresh; congruence|].
        rewrite Hget. reflexivity.
    + cbn. rewrite od_get_setitem_ne by exact Hne. rewrite Hget. reflexivity.
Qed.

(** X14. [get] raises [KeyError] exactly when the key is not in the cache,
    and then leaves the cache as it was; otherwise it returns the value
    stored under the key. *)
Theorem X14_lru_get_of_a_missing_key_raises key c :
  (snd (get key c) = KeyError <-> key ∉ keys c)
  /\ (snd (get key c) = KeyError -> fst (get key c) = c)
  /\ (forall v, snd (get key c) = Ok v <-> od_get key (cache c) = Some v).
Proof.
  unfold keys. rewrite <- od_get_None. rewrite get_answer. split; [|split].
  - destruct (od_get key (cache c)); split; congruence.
  - unfold get. rewrite <- od_pop_get.
    destruct (od_pop key (cache c)) as [[v d']|]; [discriminate|reflexivity].
  - intros v. destruct (od_get key (cache c)); split; congruence.
Qed.

(** X15. The one case in which [set] raises: the [KeyError] of
    [popitem] on an empty dict, when the cache is empty and its capacity is
    zero or negative.  The cache is then left empty: such a cache never
    stores anything. *)
Theorem X15_lru_set_raises_only_without_capacity key value c :
  (snd (set key value c) = KeyError <-> cache c = [] /\ capacity c <= 0)
  /\ (snd (set key value c) = KeyError -> fst (set key value c) = c).
Proof.
  unfold set. destruct (od_pop key (cache c)) as [[v d']|] eqn:Hpop.
  - apply od_pop_Some in Hpop. destruct Hpop as (l1 & l2 & Hc & _).
    split; [|discriminate]. split; [discriminate|].
    intros [Hnil _]. rewrite Hnil in Hc. destruct l1; discriminate.
  - destruct (Z.geb_spec (Z.of_nat (length (cache c))) (capacity c)) as [Hfull|Hroom].
    + destruct (cache c) as [|item rest] eqn:Hc; cbn.
      * cbn in Hfull. split; [|reflexivity]. split; [intros _; split; [reflexivity|lia]|reflexivity].
      * split; [|discriminate]. split; [discriminate|]. intros [Hnil _]. discriminate.
    + cbn. split; [|discriminate]. split; [discriminate|].
      intros [Hnil Hcap]. rewrite Hnil in Hroom. cbn in Hroom. lia.
Qed.
End LRUTheorems.

Lemma X9_witness :
  Z.of_nat (length (LRUCache.cache
     (LRUCache.run [LRUCache.Set_ "a"%string 1; LRUCache.Set_ "b"%string 2;
                    LRUCache.Get "a"%string; LRUCache.Set_ "c"%string 3]
        (LRUCache.init 2)))) <= 2.
Proof.
  pose proof (X9_lru_cache_stays_within_capacity
                [LRUCache.Set_ "a"%string 1; LRUCache.Set_ "b"%string 2;
                 LRUCache.Get "a"%string; LRUCache.Set_ "c"%string 3] 2) as W.
  assert (H1 : 0 <= 2) by lia.
  destruct (W H1) as (_ & Hlen & _). exact Hlen.
Defined.

(** The same run, evaluated: ["a"] was read after ["b"] was set, so ["b"]
    is the one dropped for ["c"]. *)
Example lru_run :
  LRUCache.cache
    (LRUCache.run [LRUCache.Set_ "a"%string 1; LRUCache.Set_ "b"%string 2;
                   LRUCache.Get "a"%string; LRUCache.Set_ "c"%string 3]
       (LRUCache.init 2))
  = [("a"%string, 1); ("c"%string, 3)].
Proof. vm_compute. reflexivity. Qed.

Lemma X10_witness :
  snd (LRUCache.get "c"%string (fst (LRUCache.set "c"%string 3 lru_ab)))
  = LRUCache.Ok 3.
Proof.
  pose proof (X10_lru_get_after_set_returns_the_value "c"%string 3 lru_ab) as W.
  assert (H1 : 0 < LRUCache.capacity lru_ab) by (vm_compute; reflexivity).
  destruct (W H1) as (_ & Hget). exact Hget.
Defined.

Lemma X11_witness :
  LRUCache.cache (fst (LRUCache.set "c"%string 3 lru_ab))
  = [("b"%string, 2); ("c"%string, 3)].
Proof.
  pose proof (X11_lru_set_of_a_new_key_evicts_the_oldest "c"%string 3 lru_ab) as W.
  assert (H1 : "c"%string ∉ LRUCache.keys lru_ab).
  { cbn. intros Hin. repeat (apply elem_of_cons in Hin; destruct Hin as [Hin|Hin];
      [discriminate|]). inversion Hin. }
  destruct (W H1) as (_ & Hfull).
  apply (Hfull ("a"%string, 1) [("b"%string, 2)]); [vm_compute; discriminate|reflexivity].
Defined.

Lemma X12_witness :
  LRUCache.get "a"%string lru_ab
  = (LRUCache.mk 2 [("b"%string, 2); ("a"%string, 1)], LRUCache.Ok 1).
Proof.
  pose proof (X12_lru_hit_moves_the_item_to_the_end "a"%string 1 7 lru_ab
                [] [("b"%string, 2)]) as W.
  assert (H1 : NoDup (LRUCache.keys lru_ab)).
  { cbn. apply NoDup_cons. split.
    - intros Hin. apply list_elem_of_singleton in Hin. discriminate.
    - apply NoDup_singleton. }
  assert (H2 : LRUCache.cache lru_ab = [] ++ ("a"%string, 1) :: [("b"%string, 2)])
    by reflexivity.
  destruct (W H1 H2) as (Hget & _). exact Hget.
Defined.

Lemma X13_witness :
  snd (LRUCache.get "a"%string
         (fst (LRUCache.set "c"%string 3 (fst (LRUCache.get "a"%string lru_ab)))))
  = LRUCache.Ok 1.
Proof.
  pose proof (X13_lru_get_protects_from_the_next_eviction "a"%string "c"%string 3 1
                lru_ab) as W.
  assert (H1 : NoDup (LRUCache.keys lru_ab)).
  { cbn. apply NoDup_cons. split.
    - intros Hin. apply list_elem_of_singleton in Hin. discriminate.
    - apply NoDup_singleton. }
  assert (H2 : 2 <= LRUCache.capacity lru_ab) by (vm_compute; discriminate).
  assert (H3 : "c"%string <> "a"%string) by discriminate.
  assert (H4 : snd (LRUCache.get "a"%string lru_ab) = LRUCache.Ok 1)
    by (vm_compute; reflexivity).
  exact (W H1 H2 H3 H4).
Defined.

(** * Properties of the paging pointers *)

Section LimitOffsetFacts.
Import LimitOffsetBasedObjectCollection.
Variable zero_lt_none : page_answer bool.
Variable none_lt_int : page_answer bool.

Lemma advance_pointer total c :
  _offset (advance total c)
  = Some (if total >=? or_zero (_offset c) + or_zero (_limit c)
          then or_zero (_offset c) + or_zero (_limit c) else total)
  /\ _limit (advance total c) = _limit c.
Proof. unfold advance. destruct (_ >=? _); auto. Qed.

Lemma update_ok_advances r c c' total :
  total_count r = Some total ->
  _update_pointer_to_next_page zero_lt_none r c = (c', PageOk tt) ->
  exists c1, c' = advance total c1 /\ _offset c1 = _offset c.
Proof.
  unfold _update_pointer_to_next_page. intros ->.
  destruct (limit r) as [new|].
  - destruct (new <=? 0).
    + destruct (_limit c) as [old|].
      * destruct (0 <? old); [discriminate|]. intros [= <-]. eauto.
      * destruct zero_lt_none as [[|]|e]; try discriminate. intros [= <-]. eauto.
    + intros [= <-]. eauto.
  - intros [= <-]. eauto.
Qed.

(** X16. After an update that did not raise, the pointer is a number that
    is at most the [total_count] of the response, and [_has_more_pages] is
    true exactly when the pointer is below it; the pointer has then moved
    on by the limit in force from the offset it had. *)
Theorem X16_limit_offset_pointer_stays_within_total r c c' total :
  total_count r = Some total ->
  _update_pointer_to_next_page zero_lt_none r c = (c', PageOk tt) ->
  exists o',
    next_pointer c' = Some o'
    /\ o' <= total
    /\ _has_more_pages none_lt_int r c' = PageOk (o' <? total)
    /\ (o' < total -> o' = or_zero (_offset c) + or_zero (_limit c')).
Proof.
  intros Ht Hup. destruct (update_ok_advances r c c' total Ht Hup) as (c1 & -> & Hoff).
  destruct (advance_pointer total c1) as [Hptr Hlim].
  unfold next_pointer, _has_more_pages. rewrite Hptr, Ht, Hlim, Hoff.
  destruct (Z.geb_spec total (or_zero (_offset c) + or_zero (_limit c1))).
  - eexists. split; [reflexivity|]. repeat split; lia.
  - eexists. split; [reflexivity|]. repeat split; lia.
Qed.

(** X17. A response whose limit is zero or negative, while the collection
    had a positive limit, makes the update raise the runtime error; the
    pointer is set to [total_count], so that [_has_more_pages] is false and
    no further page is asked for. *)
Theorem X17_limit_offset_bad_limit_ends_the_paging r c new old total :
  total_count r = Some total ->
  limit r = Some new ->
  new <= 0 ->
  _limit c = Some old ->
  0 < old ->
  _update_pointer_to_next_page zero_lt_none r c
  = (mk (Some new) (Some total), PageRaise (PageRuntimeError new))
  /\ _has_more_pages none_lt_int r (mk (Some new) (Some total)) = PageOk false.
Proof.
  intros Ht Hl Hnew Hold Hpos. unfold _update_pointer_to_next_page, _has_more_pages.
  rewrite Ht, Hl, Hold. cbn.
  replace (new <=? 0) with true by (symmetry; apply Z.leb_le; exact Hnew).
  replace (0 <? old) with true by (symmetry; apply Z.ltb_lt; exact Hpos).
  replace (total <? total) with false by (symmetry; apply Z.ltb_irrefl).
  auto.
Qed.

Lemma update_positive_limit r c total L :
  total_count r = Some total -> limit r = Some L -> 0 < L ->
  _update_pointer_to_next_page zero_lt_none r c
  = (mk (Some L) (Some (if total >=? or_zero (_offset c) + L
                        then or_zero (_offset c) + L else total)),
     PageOk tt).
Proof.
  intros Ht Hl Hpos. unfold _update_pointer_to_next_page. rewrite Ht, Hl.
  replace (L <=? 0) with false by (symmetry; apply Z.leb_gt; exact Hpos).
  unfold advance. cbn. destruct (_ >=? _); reflexivity.
Qed.

(** X18. Pages that all report the same [total_count] and the same
    positive limit [L], from an offset [o] within the total: no update
    raises, after [n] pages ([n] at least one) the pointer is
    [min (o + n * L, total_count)], and [_has_more_pages] is true exactly
    while [o + n * L] is below the total.  So the paging ends, after the
    number of pages that [total_count - o] holds at [L] items a page. *)
Theorem X18_limit_offset_paging_reaches_the_total r c total L n :
  total_count r = Some total ->
  limit r = Some L ->
  0 < L ->
  0 <= or_zero (_offset c) <= total ->
  paging zero_lt_none (S n) r c
  = (mk (Some L) (Some (Z.min (or_zero (_offset c) + Z.of_nat (S n) * L) total)),
     PageOk tt)
  /\ _has_more_pages none_lt_int r (fst (paging zero_lt_none (S n) r c))
     = PageOk (or_zero (_offset c) + Z.of_nat (S n) * L <? total).
Proof.
  intros Ht Hl Hpos Hoff.
  assert (Hrun : paging zero_lt_none (S n) r c
            = (mk (Some L) (Some (Z.min (or_zero (_offset c) + Z.of_nat (S n) * L) total)),
               PageOk tt)).
  { revert c Hoff. induction n as [|n IH]; intros c Hoff.
    - cbn [paging]. rewrite (update_positive_limit r c total L Ht Hl Hpos).
      f_equal. f_equal. f_equal.
      destruct (Z.geb_spec total (or_zero (_offset c) + L)); lia.
    - change (paging zero_lt_none (S (S n)) r c)
        with (match _update_pointer_to_next_page zero_lt_none r c with
              | (c', PageOk _) => paging zero_lt_none (S n) r c'
              | (c', PageRaise e) => (c', PageRaise e)
              end).
      rewrite (update_positive_limit r c total L Ht Hl Hpos).
      rewrite IH.
      + cbn [_offset or_zero]. f_equal. f_equal. f_equal.
        destruct (Z.geb_spec total (or_zero (_offset c) + L)); lia.
      + cbn [_offset or_zero].
        destruct (Z.geb_spec total (or_zero (_offset c) + L)); lia. }
  split; [exact Hrun|]. rewrite Hrun. unfold _has_more_pages. cbn [fst _offset].
  rewrite Ht. f_equal.
  destruct (Z.ltb_spec (or_zero (_offset c) + Z.of_nat (S n) * L) total);
    [apply Z.ltb_lt|apply Z.ltb_ge]; lia.
Qed.

(** X19. With no limit in the response and none (or zero) in the
    collection, an update moves the pointer by nothing: while the offset is
    below [total_count] it stays where it is, page after page, and
    [_has_more_pages] stays true. *)
Theorem X19_limit_offset_without_limit_does_not_advance r c total o n :
  total_count r = Some total ->
  limit r = None ->
  or_zero (_limit c) = 0 ->
  _offset c = Some o ->
  o < total ->
  paging zero_lt_none n r c = (c, PageOk tt)
  /\ _has_more_pages none_lt_int r (fst (paging zero_lt_none n r c)) = PageOk true.
Proof.
  intros Ht Hl Hlim Hoff Hlt.
  assert (Hup : _update_pointer_to_next_page zero_lt_none r c = (c, PageOk tt)).
  { unfold _update_pointer_to_next_page, advance. rewrite Ht, Hl, Hlim, Hoff. cbn.
    replace (total >=? o + 0) with true by (symmetry; apply Z.geb_le; lia).
    rewrite Z.add_0_r. destruct c; cbn in *. subst. reflexivity. }
  assert (Hrun : paging zero_lt_none n r c = (c, PageOk tt)).
  { induction n as [|n IH]; cbn [paging]; [reflexivity|]. rewrite Hup. exact IH. }
  split; [exact Hrun|]. rewrite Hrun. unfold _has_more_pages. cbn [fst].
  rewrite Hoff, Ht. f_equal. apply Z.ltb_lt. exact Hlt.
Qed.
End LimitOffsetFacts.

Lemma X16_witness :
  exists o',
    LimitOffsetBasedObjectCollection.next_pointer
      (fst (LimitOffsetBasedObjectCollection._update_pointer_to_next_page py3
              page_of_25 collection0)) = Some o'
    /\ o' <= 25.
Proof.
  pose proof (X16_limit_offset_pointer_stays_within_total py3 py3 page_of_25 collection0
                (fst (LimitOffsetBasedObjectCollection._update_pointer_to_next_page py3
                        page_of_25 collection0)) 25) as W.
  assert (H1 : total_count page_of_25 = Some 25) by reflexivity.
  assert (H2 : LimitOffsetBasedObjectCollection._update_pointer_to_next_page py3
                 page_of_25 collection0
               = (fst (LimitOffsetBasedObjectCollection._update_pointer_to_next_page py3
                         page_of_25 collection0), PageOk tt))
    by (vm_compute; reflexivity).
  destruct (W H1 H2) as (o' & Hptr & Hle & _).
  exists o'. split; [exact Hptr | exact Hle].
Defined.

Lemma X17_witness :
  LimitOffsetBasedObjectCollection._update_pointer_to_next_page py3
    (mkLimitOffsetResponse (Some 25) (Some 0)) collection0
  = (LimitOffsetBasedObjectCollection.mk (Some 0) (Some 25),
     PageRaise (PageRuntimeError 0)).
Proof.
  pose proof (X17_limit_offset_bad_limit_ends_the_paging py3 py3
                (mkLimitOffsetResponse (Some 25) (Some 0)) collection0 0 10 25) as W.
  assert (H1 : total_count (mkLimitOffsetResponse (Some 25) (Some 0)) = Some 25)
    by reflexivity.
  assert (H2 : limit (mkLimitOffsetResponse (Some 25) (Some 0)) = Some 0)
    by reflexivity.
  assert (H3 : 0 <= 0) by lia.
  assert (H4 : LimitOffsetBasedObjectCollection._limit collection0 = Some 10)
    by reflexivity.
  assert (H5 : 0 < 10) by lia.
  destruct (W H1 H2 H3 H4 H5) as (Hup & _). exact Hup.
Defined.

Lemma X18_witness :
  LimitOffsetBasedObjectCollection._has_more_pages py3 page_of_25
    (fst (LimitOffsetBasedObjectCollection.paging py3 3 page_of_25 collection0))
  = PageOk false.
Proof.
  pose proof (X18_limit_offset_paging_reaches_the_total py3 py3 page_of_25 collection0
                25 10 2) as W.
  assert (H1 : total_count page_of_25 = Some 25) by reflexivity.
  assert (H2 : limit page_of_25 = Some 10) by reflexivity.
  assert (H3 : 0 < 10) by lia.
  assert (H4 : 0 <= LimitOffsetBasedObjectCollection.or_zero
                      (LimitOffsetBasedObjectCollection._offset collection0) <= 25)
    by (cbn; lia).
  destruct (W H1 H2 H3 H4) as (_ & Hmore). exact Hmore.
Defined.

Lemma X19_witness :
  LimitOffsetBasedObjectCollection._has_more_pages py3
    (mkLimitOffsetResponse (Some 25) None)
    (fst (LimitOffsetBasedObjectCollection.paging py3 7
            (mkLimitOffsetResponse (Some 25) None)
            (LimitOffsetBasedObjectCollection.mk None (Some 0))))
  = PageOk true.
Proof.
  pose proof (X19_limit_offset_without_limit_does_not_advance py3 py3
                (mkLimitOffsetResponse (Some 25) None)
                (LimitOffsetBasedObjectCollection.mk None (Some 0)) 25 0 7) as W.
  assert (H1 : total_count (mkLimitOffsetResponse (Some 25) None) = Some 25)
    by reflexivity.
  assert (H2 : limit (mkLimitOffsetResponse (Some 25) None) = None) by reflexivity.
  assert (H3 : LimitOffsetBasedObjectCollection.or_zero
                 (LimitOffsetBasedObjectCollection._limit
                    (LimitOffsetBasedObjectCollection.mk None (Some 0))) = 0)
    by reflexivity.
  assert (H4 : LimitOffsetBasedObjectCollection._offset
                 (LimitOffsetBasedObjectCollection.mk None (Some 0)) = Some 0)
    by reflexivity.
  assert (H5 : 0 < 25) by lia.
  destruct (W H1 H2 H3 H4 H5) as (_ & Hmore). exact Hmore.
Defined.

Section MarkerFacts.
Import MarkerBasedObjectCollection.

(** X20. After the pointer update from a page response, [_has_more_pages]
    for that response holds exactly when the pointer is a string that is
    not empty, and then the next request carries it as [marker]; a
    [next_marker] that is missing, null or the empty string all leave the
    pointer [None], and the next request then carries no [marker] at all.
    [useMarker] is sent exactly by the collections that also support
    limit-offset paging. *)
Theorem X20_marker_pointer_follows_the_response next_marker c :
  (_has_more_pages next_marker (_update_pointer_to_next_page next_marker c) = true
   <-> exists m, m <> ""%string
         /\ next_marker = MarkerString m
         /\ next_pointer (_update_pointer_to_next_page next_marker c) = Some m)
  /\ _next_page_pointer_params (_update_pointer_to_next_page next_marker c)
       !! "marker"%string
     = ParamStr <$> next_pointer (_update_pointer_to_next_page next_marker c)
  /\ (_has_more_pages next_marker (_update_pointer_to_next_page next_marker c) = false ->
      next_pointer (_update_pointer_to_next_page next_marker c) = None)
  /\ _next_page_pointer_params (_update_pointer_to_next_page next_marker c)
       !! "useMarker"%string
     = (if _supports_limit_offset_paging c then Some (ParamBool true) else None).
Proof.
  unfold _has_more_pages, _update_pointer_to_next_page, next_pointer,
    _next_page_pointer_params.
  cbn [_marker _supports_limit_offset_paging].
  destruct next_marker as [| |[|a s]]; cbn [_get_next_marker_from_response_object];
    (split; [split; [discriminate || (intros _; eexists; repeat split; discriminate)
                    |intros (m & Hm & E & _); try discriminate; congruence]|]);
    (split; [destruct (_supports_limit_offset_paging c); reflexivity|]);
    (split; [try reflexivity; discriminate|]);
    destruct (_supports_limit_offset_paging c); reflexivity.
Qed.
End MarkerFacts.

Lemma string_app_nil_r (a : string) : (a ++ "")%string = a.
Proof.
  induction a as [|x a IH]; [reflexivity|].
  change (String x (a ++ "")%string = String x a). f_equal. exact IH.
Qed.

Lemma string_app_length (a b : string) :
  String.length (a ++ b)%string = (String.length a + String.length b)%nat.
Proof.
  induction a as [|x a IH]; [reflexivity|].
  change (S (String.length (a ++ b)%string) = S (String.length a + String.length b)).
  f_equal. exact IH.
Qed.

(** X21. The header has the one key [BoxApi].  Link and password are put
    into its value as they are, with nothing escaped: a link with a password
    gives the very header that the link with
    [&shared_link_password=<password>] appended gives without a password;
    and an empty password is not no password. *)
Theorem X21_shared_link_header_escapes_nothing shared_link password :
  dom (get_shared_link_header shared_link (Some password)) = {[ "BoxApi"%string ]}
  /\ dom (get_shared_link_header shared_link None) = {[ "BoxApi"%string ]}
  /\ get_shared_link_header shared_link (Some password)
     = get_shared_link_header
         (shared_link ++ "&shared_link_password=" ++ password)%string None
  /\ get_shared_link_header shared_link (Some ""%string)
     <> get_shared_link_header shared_link None.
Proof.
  unfold get_shared_link_header. split; [apply dom_singleton_L|].
  split; [apply dom_singleton_L|]. split.
  - rewrite string_app_nil_r. reflexivity.
  - intros E. apply (f_equal (fun m => m !! "BoxApi"%string)) in E.
    rewrite !lookup_singleton_eq in E. injection E as E.
    apply (f_equal String.length) in E.
    rewrite !string_app_length in E. cbn in E. lia.
Qed.
